(** * tiflow: the Kafka sink producer and the relay configuration

    A shallow embedding of
      - [cdc/sink/mq/producer/kafka/kafka.go]: the sarama-backed producer
        (AsyncSendMessage, SyncBroadcastMessage, Flush, stop, Close, run)
        and the option reconciliation that runs before it starts
        (AdjustOptions, validateMinInsyncReplicas, getTopicConfig);
      - [relay/config.go]: the relay [Config] and its JSON rendering.

    Go's [int] is taken to be 64 bits wide.  Logging has no effect on any
    value the functions return or store and is left out. *)

From Stdlib Require Import ZArith Lia Ascii String DecimalString DecimalPos DecimalZ
  List Bool.
From stdpp Require Import base option list gmap strings.

Local Open Scope Z_scope.

(** ** Go integers *)

Module GoInt.

Definition min_int64 : Z := - 2 ^ 63.
Definition max_int64 : Z := 2 ^ 63 - 1.

(** Two's complement wrap-around of a 64-bit signed integer. *)
Definition wrap_int64 (z : Z) : Z := (z + 2 ^ 63) mod 2 ^ 64 - 2 ^ 63.

Definition in_int (z : Z) : bool := (min_int64 <=? z) && (z <=? max_int64).

End GoInt.

(** ** Errors

    One constructor per error the two packages create or tell apart.
    [errors.Trace] only attaches a stack, so a traced error is the error
    itself.  [ErrExternal] stands for any error made by the broker client
    (sarama), told apart by a code. *)

Inductive NumError := ErrSyntax | ErrRange.

Inductive error :=
| ContextCanceled
| ContextDeadlineExceeded
| ErrKafkaFlushUnfinished
| ErrKafkaInvalidConfig (configFrom : string)
| ErrKafkaBrokerConfigNotFound
| ErrKafkaSendMessage (cause : error)
| ErrKafkaAsyncSendMessage (cause : error)
| ErrKafkaNewSaramaProducer (cause : error)
| ErrStrconv (fn : string) (input : string) (e : NumError)
| ErrInjected
| ErrExternal (code : nat).

Inductive result (A : Type) :=
| Ok (a : A)
| Err (e : error).
Arguments Ok {A} a.
Arguments Err {A} e.

(** [cerror.WrapError(rfcErr, err)]: nil stays nil. *)
Definition WrapError (rfc : error -> error) (err : option error) : option error :=
  match err with
  | None => None
  | Some e => Some (rfc e)
  end.

(** [errors.Trace(err)]. *)
Definition Trace (err : error) : error := err.

(** [rfcErr.Equal(err)] at the two codes the producer tests for. *)
Definition is_broker_config_not_found (e : error) : bool :=
  match e with
  | ErrKafkaBrokerConfigNotFound => true
  | _ => false
  end.

Definition is_invalid_config (e : error) : bool :=
  match e with
  | ErrKafkaInvalidConfig _ => true
  | _ => false
  end.

(** ** strconv *)

Module Strconv.

Definition digit_of (a : ascii) : option Z :=
  let n := Z.of_N (N_of_ascii a) in
  if (48 <=? n) && (n <=? 57) then Some (n - 48) else None.

Fixpoint parse_digits (s : string) (acc : Z) : option Z :=
  match s with
  | EmptyString => Some acc
  | String a rest =>
      match digit_of a with
      | Some d => parse_digits rest (10 * acc + d)
      | None => None
      end
  end.

(** [strconv.Atoi]: an optional sign, then at least one decimal digit and
    nothing else; the value must fit an [int]. *)
Definition Atoi (s : string) : result Z :=
  let '(neg, body) :=
    match s with
    | String "+"%char rest => (false, rest)
    | String "-"%char rest => (true, rest)
    | _ => (false, s)
    end in
  match body with
  | EmptyString => Err (ErrStrconv "Atoi" s ErrSyntax)
  | _ =>
      match parse_digits body 0 with
      | None => Err (ErrStrconv "Atoi" s ErrSyntax)
      | Some n =>
          let v := if neg then - n else n in
          if GoInt.in_int v then Ok v else Err (ErrStrconv "Atoi" s ErrRange)
      end
  end.

End Strconv.

(** ** pkg/sink/kafka: what the producer package uses of it *)

Module kafka.

(** Modelled from the spec: the three configuration names, constants of
    [pkg/sink/kafka] the source refers to by name. *)
Definition TopicMaxMessageBytesConfigName : string := "max.message.bytes".
Definition BrokerMessageMaxBytesConfigName : string := "message.max.bytes".
Definition MinInsyncReplicasConfigName : string := "min.insync.replicas".

Record TopicDetail := {
  NumPartitions : Z;                    (* int32 *)
  ConfigEntries : gmap string string
}.

Record Options := {
  MaxMessageBytes : Z;                  (* int *)
  PartitionNum : Z;                     (* int32 *)
  ReplicationFactor : Z;                (* int16 *)
  AutoCreate : bool
}.

Definition set_MaxMessageBytes (o : Options) (v : Z) : Options :=
  {| MaxMessageBytes := v; PartitionNum := PartitionNum o;
     ReplicationFactor := ReplicationFactor o; AutoCreate := AutoCreate o |}.

Definition set_PartitionNum (o : Options) (v : Z) : Options :=
  {| MaxMessageBytes := MaxMessageBytes o; PartitionNum := v;
     ReplicationFactor := ReplicationFactor o; AutoCreate := AutoCreate o |}.

(** Modelled from the spec: [Options.SetPartitionNum], a method of
    [pkg/sink/kafka] that is not among the sources.  The spec has it set
    the partition count to the topic's actual one, overriding any
    user-specified value. *)
Definition SetPartitionNum (o : Options) (realPartitionCount : Z)
  : Options * option error :=
  (set_PartitionNum o realPartitionCount, None).

(** The [ClusterAdminClient] capability as the producer calls it. *)
Record ClusterAdminClient := {
  GetAllTopicsMeta : result (gmap string TopicDetail);
  GetBrokerConfig : string -> result string
}.

End kafka.

(** ** cdc/sink/mq/producer/kafka: option reconciliation *)

Module Adjust.
Import kafka.

Definition defaultPartitionNum : Z := 3.

Definition getTopicConfig (admin : ClusterAdminClient) (detail : TopicDetail)
    (topicConfigName brokerConfigName : string) : result string :=
  match ConfigEntries detail !! topicConfigName with
  | Some a => Ok a
  | None => GetBrokerConfig admin brokerConfigName
  end.

(** The closure [minInsyncReplicasConfigGetter]. *)
Definition minInsyncReplicasConfigGetter (admin : ClusterAdminClient)
    (topics : gmap string TopicDetail) (topic : string)
  : string * bool * option error :=
  match topics !! topic with
  | Some info =>
      match getTopicConfig admin info
              MinInsyncReplicasConfigName MinInsyncReplicasConfigName with
      | Err err => (EmptyString, true, Some err)
      | Ok minInsyncReplicasStr => (minInsyncReplicasStr, true, None)
      end
  | None =>
      match GetBrokerConfig admin MinInsyncReplicasConfigName with
      | Err err => (EmptyString, false, Some err)
      | Ok minInsyncReplicasStr => (minInsyncReplicasStr, false, None)
      end
  end.

Definition validateMinInsyncReplicas (admin : ClusterAdminClient)
    (topics : gmap string TopicDetail) (topic : string)
    (replicationFactor : Z) : option error :=
  let '(minInsyncReplicasStr, exists_, err) :=
    minInsyncReplicasConfigGetter admin topics topic in
  match err with
  | Some err =>
      if is_broker_config_not_found err then None else Some err
  | None =>
      match Strconv.Atoi minInsyncReplicasStr with
      | Err err => Some err
      | Ok minInsyncReplicas =>
          let configFrom : string := if exists_ then "topic" else "broker" in
          if replicationFactor <? minInsyncReplicas
          then Some (ErrKafkaInvalidConfig configFrom)
          else None
      end
  end.

(** [AdjustOptions] updates [options] through a pointer; the embedding
    returns the options as the call leaves them, next to the error. *)
Definition AdjustOptions (admin : ClusterAdminClient) (options : Options)
    (topic : string) : Options * option error :=
  match GetAllTopicsMeta admin with
  | Err err => (options, Some (Trace err))
  | Ok topics =>
    match validateMinInsyncReplicas admin topics topic
            (ReplicationFactor options) with
    | Some err => (options, Some (Trace err))
    | None =>
      match topics !! topic with
      | Some info =>
        match getTopicConfig admin info TopicMaxMessageBytesConfigName
                BrokerMessageMaxBytesConfigName with
        | Err err => (options, Some (Trace err))
        | Ok topicMaxMessageBytesStr =>
          match Strconv.Atoi topicMaxMessageBytesStr with
          | Err err => (options, Some (Trace err))
          | Ok topicMaxMessageBytes =>
            let options :=
              if topicMaxMessageBytes <? MaxMessageBytes options
              then set_MaxMessageBytes options topicMaxMessageBytes
              else options in
            match SetPartitionNum options (NumPartitions info) with
            | (options, Some err) => (options, Some (Trace err))
            | (options, None) => (options, None)
            end
          end
        end
      | None =>
        match GetBrokerConfig admin BrokerMessageMaxBytesConfigName with
        | Err err => (options, Some (Trace err))
        | Ok brokerMessageMaxBytesStr =>
          match Strconv.Atoi brokerMessageMaxBytesStr with
          | Err err => (options, Some (Trace err))
          | Ok brokerMessageMaxBytes =>
            let options :=
              if brokerMessageMaxBytes <? MaxMessageBytes options
              then set_MaxMessageBytes options brokerMessageMaxBytes
              else options in
            let options :=
              if PartitionNum options =? 0
              then set_PartitionNum options defaultPartitionNum
              else options in
            (options, None)
          end
        end
      end
    end
  end.

(** The applicable [min.insync.replicas] in the spec's words: the topic's
    own entry when the topic exists and carries one, the broker's value
    otherwise; [None] when it cannot be read or is not a number. *)
Definition applicable_min_insync_str (admin : ClusterAdminClient)
    (topics : gmap string TopicDetail) (topic : string) : result string :=
  match topics !! topic with
  | Some info =>
      match ConfigEntries info !! "min.insync.replicas"%string with
      | Some v => Ok v
      | None => GetBrokerConfig admin "min.insync.replicas"
      end
  | None => GetBrokerConfig admin "min.insync.replicas"
  end.

Definition applicable_min_insync (admin : ClusterAdminClient)
    (topic : string) : option Z :=
  match GetAllTopicsMeta admin with
  | Err _ => None
  | Ok topics =>
      match applicable_min_insync_str admin topics topic with
      | Err _ => None
      | Ok s =>
          match Strconv.Atoi s with
          | Ok v => Some v
          | Err _ => None
          end
      end
  end.

(** The admin client hands back its own errors, never the producer's
    configuration-invalid one. *)
Definition admin_errors_foreign (admin : ClusterAdminClient) : Prop :=
  (∀ e, GetAllTopicsMeta admin = Err e → is_invalid_config e = false) ∧
  (∀ name e, GetBrokerConfig admin name = Err e → is_invalid_config e = false).

Definition returned_invalid_config (r : Options * option error) : bool :=
  match snd r with
  | Some e => is_invalid_config e
  | None => false
  end.

End Adjust.

(** Builders for the reconciliation scenarios of the specification. *)

Definition topic_with (n : Z) (entries : list (string * string)) : kafka.TopicDetail :=
  {| kafka.NumPartitions := n; kafka.ConfigEntries := list_to_map entries |}.

Definition broker_table (entries : list (string * string)) (name : string)
  : result string :=
  match (list_to_map entries : gmap string string) !! name with
  | Some v => Ok v
  | None => Err ErrKafkaBrokerConfigNotFound
  end.

Definition admin_of (topics : list (string * kafka.TopicDetail))
    (broker : list (string * string)) : kafka.ClusterAdminClient :=
  {| kafka.GetAllTopicsMeta := Ok (list_to_map topics);
     kafka.GetBrokerConfig := broker_table broker |}.

Definition options_of (maxBytes partitions replication : Z) : kafka.Options :=
  {| kafka.MaxMessageBytes := maxBytes; kafka.PartitionNum := partitions;
     kafka.ReplicationFactor := replication; kafka.AutoCreate := true |}.

(** ** cdc/sink/mq/producer/kafka: the producer

    The producer is used by several goroutines at once: the caller that
    sends and flushes (the source requires AsyncSendMessage and Flush to be
    called from one goroutine), callers of SyncBroadcastMessage and Close,
    and the goroutine that NewKafkaSaramaProducer starts on [run].  The
    embedding cuts every method at the points where another goroutine can
    be scheduled in between (a lock is taken, a select is reached, an atomic
    operation is done): each piece is a function on the producer's fields,
    and [step] runs one piece of one goroutine.  An execution is a list of
    such pieces, interleaved in any order that keeps each goroutine
    sequential. *)

Module Producer.

Definition kafkaProducerRunning : Z := 0.
Definition kafkaProducerClosing : Z := 1.

(** [sarama.ProducerMessage] as AsyncSendMessage fills it in. *)
Record ProducerMessage := {
  Topic : string;
  Key : list Byte.byte;
  Value : list Byte.byte;
  Partition : Z                         (* int32 *)
}.

(** [common.Message]: the two fields the producer reads. *)
Record Message := {
  msgKey : list Byte.byte;
  msgValue : list Byte.byte
}.

(** A [context.Context] at the moment a select looks at it: [None] while
    [Done()] is open, [Some err] with [err = ctx.Err()] once it is closed. *)
Definition context := option error.

(** The fields of [kafkaSaramaProducer] that change.  The four client
    handles are fixed at construction; what the clients themselves do is
    kept in [Sarama] below.  A channel of [struct{}] with a buffer is its
    number of buffered elements; [closeCh], never sent on, is whether it
    has been closed; [flushDone] is nil or one of the channels made by
    Flush, named by its index in the list of all of them. *)
Record kafkaSaramaProducer := {
  producersReleased : bool;
  mu_inflight : Z;                      (* int64 *)
  mu_flushDone : option nat;
  failpointCh : list error;             (* capacity 1 *)
  closeCh : bool;
  closing : Z                           (* kafkaProducerClosingFlag = int32 *)
}.

Definition set_producersReleased (k : kafkaSaramaProducer) (v : bool) :=
  {| producersReleased := v; mu_inflight := mu_inflight k;
     mu_flushDone := mu_flushDone k; failpointCh := failpointCh k;
     closeCh := closeCh k; closing := closing k |}.
Definition set_inflight (k : kafkaSaramaProducer) (v : Z) :=
  {| producersReleased := producersReleased k; mu_inflight := v;
     mu_flushDone := mu_flushDone k; failpointCh := failpointCh k;
     closeCh := closeCh k; closing := closing k |}.
Definition set_flushDone (k : kafkaSaramaProducer) (v : option nat) :=
  {| producersReleased := producersReleased k; mu_inflight := mu_inflight k;
     mu_flushDone := v; failpointCh := failpointCh k;
     closeCh := closeCh k; closing := closing k |}.
Definition set_failpointCh (k : kafkaSaramaProducer) (v : list error) :=
  {| producersReleased := producersReleased k; mu_inflight := mu_inflight k;
     mu_flushDone := mu_flushDone k; failpointCh := v;
     closeCh := closeCh k; closing := closing k |}.
Definition set_closeCh (k : kafkaSaramaProducer) (v : bool) :=
  {| producersReleased := producersReleased k; mu_inflight := mu_inflight k;
     mu_flushDone := mu_flushDone k; failpointCh := failpointCh k;
     closeCh := v; closing := closing k |}.
Definition set_closing (k : kafkaSaramaProducer) (v : Z) :=
  {| producersReleased := producersReleased k; mu_inflight := mu_inflight k;
     mu_flushDone := mu_flushDone k; failpointCh := failpointCh k;
     closeCh := closeCh k; closing := v |}.

(** The producer as NewKafkaSaramaProducer builds it. *)
Definition NewKafkaSaramaProducer : kafkaSaramaProducer :=
  {| producersReleased := false; mu_inflight := 0; mu_flushDone := None;
     failpointCh := []; closeCh := false; closing := kafkaProducerRunning |}.

(** *** The broker client

    What the sarama clients hold on the producer's behalf: the messages
    the asynchronous producer has taken from [Input()] and not yet
    reported on [Successes()], the calls of [SendMessages] the synchronous
    producer has received, and the [Close()] calls on the four handles in
    the order they came, each with what it returned. *)

Inductive resource := Client | AsyncProducer | SyncProducer | Admin.

Global Instance resource_eq_dec : EqDecision resource.
Proof. solve_decision. Defined.

Record SendMessagesCall := {
  smTopic : string;
  smPartitionsNum : Z;
  smKey : list Byte.byte;
  smValue : list Byte.byte
}.

Record Sarama := {
  accepted : list ProducerMessage;
  broadcasts : list SendMessagesCall;
  closed : list (resource * option error)
}.

Definition NewSarama : Sarama :=
  {| accepted := []; broadcasts := []; closed := [] |}.

Definition is_closed (r : resource) (s : Sarama) : bool :=
  bool_decide (r ∈ (closed s).*1).

(** What one piece of code can end in: it ran ([Next], with what it
    returns), it cannot run in this state ([Blocked]: a channel operation
    that is not ready, a lock that is held), or the Go runtime panics
    (close of a closed channel, send on a closed channel, a second
    [Close()] of a sarama handle). *)
Inductive outcome (A : Type) :=
| Next (a : A)
| Blocked
| Panic.
Arguments Next {A} a.
Arguments Blocked {A}.
Arguments Panic {A}.

(** *** AsyncSendMessage *)

(** Lines 93-95: the closing flag, read under [clientLock.RLock()]. *)
Definition AsyncSendMessage_closing (k : kafkaSaramaProducer) : bool :=
  closing k =? kafkaProducerClosing.

(** Lines 97-104, in a build with the failpoint switched on: the error is
    sent on [failpointCh] and the call returns nil. *)
Definition AsyncSendMessage_failpoint (k : kafkaSaramaProducer)
  : outcome (kafkaSaramaProducer * option error) :=
  if (length (failpointCh k) <? 1)%nat
  then Next (set_failpointCh k (failpointCh k ++ [ErrInjected]), None)
  else Blocked.

(** Lines 106-111. *)
Definition AsyncSendMessage_msg (topic : string) (partition : Z)
    (message : Message) : ProducerMessage :=
  {| Topic := topic; Key := msgKey message; Value := msgValue message;
     Partition := partition |}.

(** Lines 112-115. *)
Definition AsyncSendMessage_count (k : kafkaSaramaProducer)
  : kafkaSaramaProducer :=
  set_inflight k (GoInt.wrap_int64 (mu_inflight k + 1)).

(** Lines 117-124: the case the select takes.  The result is what the
    call returns and whether the message went into [Input()]. *)
Inductive send_case := SendCtxDone | SendCloseCh | SendInput.

Definition AsyncSendMessage_select (ctx : context) (k : kafkaSaramaProducer)
    (s : Sarama) (msg : ProducerMessage) (c : send_case)
  : outcome (Sarama * option error) :=
  match c with
  | SendCtxDone =>
      match ctx with
      | Some err => Next (s, Some err)
      | None => Blocked
      end
  | SendCloseCh => if closeCh k then Next (s, None) else Blocked
  | SendInput =>
      if is_closed AsyncProducer s then Panic
      else Next ({| accepted := accepted s ++ [msg];
                    broadcasts := broadcasts s; closed := closed s |}, None)
  end.

(** *** SyncBroadcastMessage *)

(** The select has a default, which runs only when no channel is ready.
    [sendResult] is what [SendMessages] returns; what it does on a producer
    that was closed is sarama's business, the call is recorded all the
    same. *)
Inductive sync_case := SyncCtxDone | SyncCloseCh | SyncDefault.

Definition SyncBroadcastMessage (ctx : context) (k : kafkaSaramaProducer)
    (s : Sarama) (topic : string) (partitionsNum : Z) (message : Message)
    (sendResult : option error) (c : sync_case)
  : outcome (Sarama * option error) :=
  match c with
  | SyncCtxDone =>
      match ctx with
      | Some err => Next (s, Some err)
      | None => Blocked
      end
  | SyncCloseCh => if closeCh k then Next (s, None) else Blocked
  | SyncDefault =>
      match ctx with
      | Some _ => Blocked
      | None =>
          if closeCh k then Blocked
          else
            Next ({| accepted := accepted s;
                     broadcasts := broadcasts s ++
                       [{| smTopic := topic; smPartitionsNum := partitionsNum;
                           smKey := msgKey message;
                           smValue := msgValue message |}];
                     closed := closed s |},
                  WrapError ErrKafkaSendMessage sendResult)
      end
  end.

(** *** Flush *)

(** Lines 149-161.  [chans] are the channels made by Flush so far; the new
    [done] is the next one.  The result is [inl ret] when Flush returns at
    once and [inr done] when it goes on to wait. *)
Definition Flush_enter (k : kafkaSaramaProducer) (chans : list nat)
  : kafkaSaramaProducer * list nat * (option error + nat) :=
  let done := length chans in
  let chans := chans ++ [0%nat] in
  let inflight := mu_inflight k in
  let immediateFlush := inflight =? 0 in
  let k := if negb immediateFlush then set_flushDone k (Some done) else k in
  if immediateFlush then (k, chans, inl None) else (k, chans, inr done).

(** Lines 164-171. *)
Inductive flush_case := FlushCloseCh | FlushCtxDone | FlushDone.

Definition Flush_select (ctx : context) (k : kafkaSaramaProducer)
    (chans : list nat) (done : nat) (c : flush_case)
  : outcome (list nat * option error) :=
  match c with
  | FlushCloseCh =>
      if closeCh k then Next (chans, Some ErrKafkaFlushUnfinished) else Blocked
  | FlushCtxDone =>
      match ctx with
      | Some err => Next (chans, Some err)
      | None => Blocked
      end
  | FlushDone =>
      match chans !! done with
      | Some (S n) => Next (<[done := n]> chans, None)
      | _ => Blocked
      end
  end.

(** *** stop and Close *)

(** Line 177: [atomic.SwapInt32]; the second component is the old value. *)
Definition stop_swap (k : kafkaSaramaProducer) : kafkaSaramaProducer * Z :=
  (set_closing k kafkaProducerClosing, closing k).

(** Line 182: [close(k.closeCh)]. *)
Definition stop_close (k : kafkaSaramaProducer) : outcome kafkaSaramaProducer :=
  if closeCh k then Panic else Next (set_closeCh k true).

(** [stop] run without interruption; the flag says whether this call was
    the one that closed [closeCh]. *)
Definition stop (k : kafkaSaramaProducer) : outcome (kafkaSaramaProducer * bool) :=
  let '(k, old) := stop_swap k in
  if old =? kafkaProducerClosing then Next (k, false)
  else
    match stop_close k with
    | Next k => Next (k, true)
    | Blocked => Blocked
    | Panic => Panic
    end.

(** [Close()] of one sarama handle, returning [ret]. *)
Definition release (r : resource) (ret : option error) (s : Sarama)
  : outcome Sarama :=
  if is_closed r s then Panic
  else Next {| accepted := accepted s; broadcasts := broadcasts s;
               closed := closed s ++ [(r, ret)] |}.

Definition and_then {A B : Type} (o : outcome A) (f : A -> outcome B)
  : outcome B :=
  match o with
  | Next a => f a
  | Blocked => Blocked
  | Panic => Panic
  end.

(** Lines 191-262, under [clientLock.Lock()].  [rets r] is what
    [Close()] of handle [r] returns. *)
Definition Close_locked (rets : resource -> option error)
    (k : kafkaSaramaProducer) (s : Sarama)
  : outcome (kafkaSaramaProducer * Sarama * option error) :=
  if producersReleased k then Next (k, s, None)
  else
    let k := set_producersReleased k true in
    and_then (release Client (rets Client) s) (fun s =>
    and_then (release AsyncProducer (rets AsyncProducer) s) (fun s =>
    and_then (release SyncProducer (rets SyncProducer) s) (fun s =>
    and_then (release Admin (rets Admin) s) (fun s =>
    Next (k, s, None))))).

(** [Close] run without interruption. *)
Definition Close (rets : resource -> option error)
    (k : kafkaSaramaProducer) (s : Sarama)
  : outcome (kafkaSaramaProducer * Sarama * option error) :=
  and_then (stop k) (fun '(k, _) => Close_locked rets k s).

(** *** run *)

(** The case the select of the loop takes.  [RunSuccess (Some i)] is the
    asynchronous producer reporting the [i]-th of the messages it holds;
    [RunSuccess None] is a nil read from [Successes()]; [RunError err] is
    a read of [err] from [Errors()]. *)
Inductive run_case :=
| RunCtxDone
| RunCloseCh
| RunFailpoint
| RunSuccess (i : option nat)
| RunError (err : option error).

(** Lines 275-294.  [inl ret]: the loop is left and run returns [ret];
    [inr ack]: the select is passed with [ack]. *)
Definition run_select (ctx : context) (k : kafkaSaramaProducer) (s : Sarama)
    (c : run_case)
  : outcome (kafkaSaramaProducer * Sarama * (option error + option ProducerMessage)) :=
  match c with
  | RunCtxDone =>
      match ctx with
      | Some err => Next (k, s, inl (Some err))
      | None => Blocked
      end
  | RunCloseCh => if closeCh k then Next (k, s, inl None) else Blocked
  | RunFailpoint =>
      match failpointCh k with
      | err :: rest => Next (set_failpointCh k rest, s, inl (Some err))
      | [] => Blocked
      end
  | RunSuccess None => Next (k, s, inr None)
  | RunSuccess (Some i) =>
      match accepted s !! i with
      | Some ack =>
          Next (k, {| accepted := delete i (accepted s);
                      broadcasts := broadcasts s; closed := closed s |},
                inr (Some ack))
      | None => Blocked
      end
  | RunError err => Next (k, s, inl (WrapError ErrKafkaAsyncSendMessage err))
  end.

(** Lines 295-303 for a non-nil [ack].  The send on [flushDone] needs room
    in the channel's buffer of one. *)
Definition run_count (k : kafkaSaramaProducer) (chans : list nat)
  : outcome (kafkaSaramaProducer * list nat) :=
  let k := set_inflight k (GoInt.wrap_int64 (mu_inflight k - 1)) in
  if mu_inflight k =? 0 then
    match mu_flushDone k with
    | Some done =>
        match chans !! done with
        | Some 0%nat => Next (set_flushDone k None, <[done := 1%nat]> chans)
        | _ => Blocked
        end
    | None => Next (k, chans)
    end
  else Next (k, chans).

(** *** Goroutines

    Where the goroutines stand between two pieces. *)

(** The goroutine that sends and flushes. *)
Inductive caller_pc :=
| CallerIdle
| SendChecked (msg : ProducerMessage)     (* in AsyncSendMessage, flag read *)
| SendSelecting (msg : ProducerMessage)   (* in AsyncSendMessage, at the select *)
| FlushWaiting (done : nat).              (* in Flush, at the select *)

(** The goroutine on [run]. *)
Inductive run_pc :=
| RunSelecting
| RunAcked (ack : ProducerMessage)        (* past the select with a non-nil ack *)
| RunStopping (ret : option error)        (* loop left, deferred stop to come *)
| RunSignalling (ret : option error)      (* in stop, flag swapped from Running *)
| RunReturned (ret : option error).

(** Goroutines in Close are counted by where they stand: in its stop
    after a swap that read Running, or between stop and the lock. *)
Record world := {
  prod : kafkaSaramaProducer;
  chans : list nat;
  sarama : Sarama;
  caller : caller_pc;
  runner : run_pc;
  closers_signalling : nat;
  closers_waiting : nat
}.

Definition init : world :=
  {| prod := NewKafkaSaramaProducer; chans := []; sarama := NewSarama;
     caller := CallerIdle; runner := RunSelecting;
     closers_signalling := 0; closers_waiting := 0 |}.

Definition set_prod (w : world) (v : kafkaSaramaProducer) : world :=
  {| prod := v; chans := chans w; sarama := sarama w; caller := caller w;
     runner := runner w; closers_signalling := closers_signalling w;
     closers_waiting := closers_waiting w |}.
Definition set_chans (w : world) (v : list nat) : world :=
  {| prod := prod w; chans := v; sarama := sarama w; caller := caller w;
     runner := runner w; closers_signalling := closers_signalling w;
     closers_waiting := closers_waiting w |}.
Definition set_sarama (w : world) (v : Sarama) : world :=
  {| prod := prod w; chans := chans w; sarama := v; caller := caller w;
     runner := runner w; closers_signalling := closers_signalling w;
     closers_waiting := closers_waiting w |}.
Definition set_caller (w : world) (v : caller_pc) : world :=
  {| prod := prod w; chans := chans w; sarama := sarama w; caller := v;
     runner := runner w; closers_signalling := closers_signalling w;
     closers_waiting := closers_waiting w |}.
Definition set_runner (w : world) (v : run_pc) : world :=
  {| prod := prod w; chans := chans w; sarama := sarama w; caller := caller w;
     runner := v; closers_signalling := closers_signalling w;
     closers_waiting := closers_waiting w |}.
Definition set_closers (w : world) (signalling waiting : nat) : world :=
  {| prod := prod w; chans := chans w; sarama := sarama w; caller := caller w;
     runner := runner w; closers_signalling := signalling;
     closers_waiting := waiting |}.

(** The read lock of [clientLock] is held by the sender from the call of
    AsyncSendMessage to its return. *)
Definition rlock_held (w : world) : bool :=
  match caller w with
  | SendChecked _ | SendSelecting _ => true
  | CallerIdle | FlushWaiting _ => false
  end.

(** What a piece of code does that can be seen from outside it. *)
Inductive fn :=
| FnAsyncSendMessage | FnSyncBroadcastMessage | FnFlush | FnClose | FnRun.

Global Instance fn_eq_dec : EqDecision fn.
Proof. solve_decision. Defined.

Inductive obs :=
| Returned (f : fn) (ret : option error)
| Counted (msg : ProducerMessage)         (* inflight++ on behalf of msg *)
| Handed (msg : ProducerMessage)          (* Input() <- msg *)
| Abandoned (msg : ProducerMessage)       (* the select left without the send *)
| Acked (msg : ProducerMessage)           (* msg read from Successes() *)
| Decremented (msg : ProducerMessage)     (* inflight-- on behalf of msg *)
| Swapped (old : Z)                       (* SwapInt32 in stop *)
| Signalled                               (* close(closeCh) *)
| Released (r : resource) (ret : option error)
| Broadcast (call : SendMessagesCall).

Inductive event :=
| CallAsyncSendMessage (topic : string) (partition : Z) (message : Message)
| AsyncSendFailpoint
| AsyncSendCount
| AsyncSendSelect (ctx : context) (c : send_case)
| CallSyncBroadcastMessage (ctx : context) (topic : string)
    (partitionsNum : Z) (message : Message) (sendResult : option error)
    (c : sync_case)
| CallFlush
| FlushSelect (ctx : context) (c : flush_case)
| CallClose
| CloseSignal
| CloseLocked (rets : resource -> option error)
| RunSelect (ctx : context) (c : run_case)
| RunCount
| RunStop
| RunSignal.

Definition step (e : event) (w : world) : outcome (world * list obs) :=
  match e with
  | CallAsyncSendMessage topic partition message =>
      match caller w with
      | CallerIdle =>
          if AsyncSendMessage_closing (prod w)
          then Next (w, [Returned FnAsyncSendMessage None])
          else Next (set_caller w
                       (SendChecked (AsyncSendMessage_msg topic partition message)),
                     [])
      | _ => Blocked
      end
  | AsyncSendFailpoint =>
      match caller w with
      | SendChecked _ =>
          and_then (AsyncSendMessage_failpoint (prod w)) (fun '(k, ret) =>
          Next (set_caller (set_prod w k) CallerIdle,
                [Returned FnAsyncSendMessage ret]))
      | _ => Blocked
      end
  | AsyncSendCount =>
      match caller w with
      | SendChecked msg =>
          Next (set_caller (set_prod w (AsyncSendMessage_count (prod w)))
                  (SendSelecting msg),
                [Counted msg])
      | _ => Blocked
      end
  | AsyncSendSelect ctx c =>
      match caller w with
      | SendSelecting msg =>
          and_then (AsyncSendMessage_select ctx (prod w) (sarama w) msg c)
            (fun '(s, ret) =>
          Next (set_caller (set_sarama w s) CallerIdle,
                [match c with SendInput => Handed msg | _ => Abandoned msg end;
                 Returned FnAsyncSendMessage ret]))
      | _ => Blocked
      end
  | CallSyncBroadcastMessage ctx topic partitionsNum message sendResult c =>
      and_then (SyncBroadcastMessage ctx (prod w) (sarama w) topic
                  partitionsNum message sendResult c) (fun '(s, ret) =>
      Next (set_sarama w s,
            match c with
            | SyncDefault =>
                [Broadcast {| smTopic := topic; smPartitionsNum := partitionsNum;
                              smKey := msgKey message;
                              smValue := msgValue message |};
                 Returned FnSyncBroadcastMessage ret]
            | _ => [Returned FnSyncBroadcastMessage ret]
            end))
  | CallFlush =>
      match caller w with
      | CallerIdle =>
          let '(k, chans, r) := Flush_enter (prod w) (chans w) in
          let w := set_chans (set_prod w k) chans in
          match r with
          | inl ret => Next (w, [Returned FnFlush ret])
          | inr done => Next (set_caller w (FlushWaiting done), [])
          end
      | _ => Blocked
      end
  | FlushSelect ctx c =>
      match caller w with
      | FlushWaiting done =>
          and_then (Flush_select ctx (prod w) (chans w) done c)
            (fun '(chans, ret) =>
          Next (set_caller (set_chans w chans) CallerIdle,
                [Returned FnFlush ret]))
      | _ => Blocked
      end
  | CallClose =>
      let '(k, old) := stop_swap (prod w) in
      let w := set_prod w k in
      if old =? kafkaProducerClosing
      then Next (set_closers w (closers_signalling w) (S (closers_waiting w)),
                 [Swapped old])
      else Next (set_closers w (S (closers_signalling w)) (closers_waiting w),
                 [Swapped old])
  | CloseSignal =>
      match closers_signalling w with
      | S n =>
          and_then (stop_close (prod w)) (fun k =>
          Next (set_closers (set_prod w k) n (S (closers_waiting w)),
                [Signalled]))
      | O => Blocked
      end
  | CloseLocked rets =>
      match closers_waiting w with
      | S n =>
          if rlock_held w then Blocked
          else
            and_then (Close_locked rets (prod w) (sarama w)) (fun '(k, s, ret) =>
            Next (set_closers (set_sarama (set_prod w k) s)
                    (closers_signalling w) n,
                  if producersReleased (prod w)
                  then [Returned FnClose ret]
                  else [Released Client (rets Client);
                        Released AsyncProducer (rets AsyncProducer);
                        Released SyncProducer (rets SyncProducer);
                        Released Admin (rets Admin);
                        Returned FnClose ret]))
      | O => Blocked
      end
  | RunSelect ctx c =>
      match runner w with
      | RunSelecting =>
          and_then (run_select ctx (prod w) (sarama w) c) (fun '(k, s, r) =>
          let w := set_sarama (set_prod w k) s in
          match r with
          | inl ret => Next (set_runner w (RunStopping ret), [])
          | inr (Some ack) => Next (set_runner w (RunAcked ack), [Acked ack])
          | inr None => Next (w, [])
          end)
      | _ => Blocked
      end
  | RunCount =>
      match runner w with
      | RunAcked ack =>
          and_then (run_count (prod w) (chans w)) (fun '(k, chans) =>
          Next (set_runner (set_chans (set_prod w k) chans) RunSelecting,
                [Decremented ack]))
      | _ => Blocked
      end
  | RunStop =>
      match runner w with
      | RunStopping ret =>
          let '(k, old) := stop_swap (prod w) in
          let w := set_prod w k in
          if old =? kafkaProducerClosing
          then Next (set_runner w (RunReturned ret),
                     [Swapped old; Returned FnRun ret])
          else Next (set_runner w (RunSignalling ret), [Swapped old])
      | _ => Blocked
      end
  | RunSignal =>
      match runner w with
      | RunSignalling ret =>
          and_then (stop_close (prod w)) (fun k =>
          Next (set_runner (set_prod w k) (RunReturned ret),
                [Signalled; Returned FnRun ret]))
      | _ => Blocked
      end
  end.

(** An execution: the pieces run one after the other; what they let be
    seen is collected in order. *)
Fixpoint exec (tr : list event) (w : world) : outcome (world * list obs) :=
  match tr with
  | [] => Next (w, [])
  | e :: tr =>
      and_then (step e w) (fun '(w, o1) =>
      and_then (exec tr w) (fun '(w, o2) => Next (w, o1 ++ o2)))
  end.

(** Readings of a record of observations. *)
Definition counted (log : list obs) : list ProducerMessage :=
  omap (fun o => match o with Counted m => Some m | _ => None end) log.
Definition handed (log : list obs) : list ProducerMessage :=
  omap (fun o => match o with Handed m => Some m | _ => None end) log.
Definition abandoned (log : list obs) : list ProducerMessage :=
  omap (fun o => match o with Abandoned m => Some m | _ => None end) log.
Definition acked (log : list obs) : list ProducerMessage :=
  omap (fun o => match o with Acked m => Some m | _ => None end) log.
Definition decremented (log : list obs) : list ProducerMessage :=
  omap (fun o => match o with Decremented m => Some m | _ => None end) log.
Definition swaps (log : list obs) : list Z :=
  omap (fun o => match o with Swapped old => Some old | _ => None end) log.
Definition signals (log : list obs) : nat :=
  length (omap (fun o => match o with Signalled => Some tt | _ => None end) log).
Definition releases (log : list obs) : list resource :=
  omap (fun o => match o with Released r _ => Some r | _ => None end) log.
Definition broadcast_calls (log : list obs) : list SendMessagesCall :=
  omap (fun o => match o with Broadcast c => Some c | _ => None end) log.
Definition returns (f : fn) (log : list obs) : list (option error) :=
  omap (fun o => match o with
                 | Returned g ret => if decide (f = g) then Some ret else None
                 | _ => None
                 end) log.

(** The messages AsyncSendMessage is called with in an execution. *)
Definition submitted (tr : list event) : list ProducerMessage :=
  omap (fun e => match e with
                 | CallAsyncSendMessage topic partition message =>
                     Some (AsyncSendMessage_msg topic partition message)
                 | _ => None
                 end) tr.

(** *** Bookkeeping of the messages

    The message the sender has counted and not yet offered to [Input()],
    and the acknowledgement the loop has read and not yet counted off. *)
Definition caller_hand (w : world) : list ProducerMessage :=
  match caller w with
  | SendSelecting msg => [msg]
  | _ => []
  end.

Definition runner_hand (w : world) : list ProducerMessage :=
  match runner w with
  | RunAcked ack => [ack]
  | _ => []
  end.

(** Where every counted message is, after [n] pieces of code at most. *)
Record flow (n : nat) (w : world) (log : list obs) : Prop := {
  flow_counted :
    counted log ≡ₚ handed log ++ abandoned log ++ caller_hand w;
  flow_handed : handed log ≡ₚ acked log ++ accepted (sarama w);
  flow_acked : acked log ≡ₚ decremented log ++ runner_hand w;
  flow_inflight :
    mu_inflight (prod w)
    = Z.of_nat (length (counted log)) - Z.of_nat (length (decremented log));
  flow_bound : (length (counted log) ≤ n)%nat;
  flow_flushDone :
    ∀ d, mu_flushDone (prod w) = Some d → chans w !! d = Some 0%nat;
  flow_waiting :
    ∀ d b, caller w = FlushWaiting d → chans w !! d = Some (S b) →
           mu_inflight (prod w) = 0;
  flow_flushed :
    last log = Some (Returned FnFlush None) → mu_inflight (prod w) = 0
}.

(** *** Bookkeeping of the shutdown

    The goroutines that have swapped the flag from Running and have yet to
    close [closeCh]. *)
Definition signalling (w : world) : nat :=
  (closers_signalling w
   + match runner w with RunSignalling _ => 1 | _ => 0 end)%nat.

(** No [stop] is under way: none has swapped the flag without having
    closed [closeCh] yet. *)
Definition quiescent (w : world) : Prop := signalling w = 0%nat.

Definition release_order : list resource :=
  [Client; AsyncProducer; SyncProducer; Admin].

Record shutdown (w : world) (log : list obs) : Prop := {
  sd_running :
    closing (prod w) = kafkaProducerRunning →
    swaps log = [] ∧ signalling w = 0%nat ∧ closeCh (prod w) = false
    ∧ closers_waiting w = 0%nat ∧ producersReleased (prod w) = false;
  sd_closing :
    closing (prod w) ≠ kafkaProducerRunning →
    closing (prod w) = kafkaProducerClosing
    ∧ (∃ n, swaps log = kafkaProducerRunning :: replicate n kafkaProducerClosing)
    ∧ (signalling w + (if closeCh (prod w) then 1 else 0) = 1)%nat;
  sd_signals : signals log = if closeCh (prod w) then 1%nat else 0%nat;
  sd_released :
    (closed (sarama w)).*1
    = if producersReleased (prod w) then release_order else [];
  sd_releases :
    releases log = if producersReleased (prod w) then release_order else [];
  sd_rlock : rlock_held w = true → producersReleased (prod w) = false;
  sd_returns : ∀ ret, ret ∈ returns FnClose log → ret = None
}.

(** *** Bookkeeping of the waiting Flush

    A Flush at its select has either its channel registered and still
    empty, with messages in flight, or its channel signalled and taken out
    of [flushDone], with nothing in flight. *)
Definition waiter (w : world) : Prop :=
  ∀ d, caller w = FlushWaiting d →
       (mu_flushDone (prod w) = Some d ∧ mu_inflight (prod w) ≠ 0
        ∧ chans w !! d = Some 0%nat)
       ∨ (mu_flushDone (prod w) = None ∧ mu_inflight (prod w) = 0
          ∧ chans w !! d = Some 1%nat).

(** *** Schedules

    The steps that take a new call of Close from its first line to its
    return: its swap of the flag; the close of closeCh that is still to
    come, by this Close or by the goroutine that swapped the flag before;
    the sender's way out of AsyncSendMessage through closeCh, if it is
    inside; the part of Close under the lock. *)
Definition finish_stop (w : world) : list event :=
  if closeCh (prod w) then []
  else
    match runner w with
    | RunSignalling _ => [RunSignal]
    | _ => [CloseSignal]
    end.

Definition release_sender (w : world) : list event :=
  match caller w with
  | SendChecked _ => [AsyncSendCount; AsyncSendSelect None SendCloseCh]
  | SendSelecting _ => [AsyncSendSelect None SendCloseCh]
  | _ => []
  end.

Definition close_schedule (rets : resource -> option error) (w : world)
  : list event :=
  CallClose :: finish_stop w ++ release_sender w ++ [CloseLocked rets].

(** The asynchronous producer acknowledges the [n] messages at the head of
    those it holds, one after the other, and the run loop counts each off. *)
Fixpoint drain (n : nat) : list event :=
  match n with
  | O => []
  | S n => RunSelect None (RunSuccess (Some 0%nat)) :: RunCount :: drain n
  end.

(** The run goroutine has gone into or through its deferred stop. *)
Definition run_stopped (w : world) : bool :=
  match runner w with
  | RunSignalling _ | RunReturned _ => true
  | _ => false
  end.

End Producer.

(** *** Sample executions *)

Module Samples.
Import Producer.

(** The state an execution from [init] ends in, and what it let be seen. *)
Definition after (tr : list event) : world :=
  match exec tr init with
  | Next (w, _) => w
  | _ => init
  end.

Definition seen (tr : list event) : list obs :=
  match exec tr init with
  | Next (_, log) => log
  | _ => []
  end.

Definition hello : Message :=
  {| msgKey := [Byte.x6b]; msgValue := [Byte.x68; Byte.x69] |}.

Definition hello_msg : ProducerMessage := AsyncSendMessage_msg "t" 0 hello.

(** One message is sent, acknowledged and flushed. *)
Definition send_and_flush : list event :=
  [ CallAsyncSendMessage "t" 0 hello; AsyncSendCount;
    AsyncSendSelect None SendInput;
    CallFlush;
    RunSelect None (RunSuccess (Some 0%nat)); RunCount;
    FlushSelect None FlushDone ].

(** One message is handed over and not yet acknowledged. *)
Definition send_only : list event :=
  [ CallAsyncSendMessage "t" 0 hello; AsyncSendCount;
    AsyncSendSelect None SendInput ].

(** Close is called and runs through its stop. *)
Definition close_stopped : list event := [CallClose; CloseSignal].

Definition all_fine (r : resource) : option error := None.

Definition client_fails (r : resource) : option error :=
  match r with
  | Client => Some (ErrExternal 7)
  | _ => None
  end.

(** Close is called and completes. *)
Definition closed_once : list event :=
  [CallClose; CloseSignal; CloseLocked all_fine].

(** After a complete Close, a message is sent and Flush is called. *)
Definition send_after_close : list event :=
  closed_once ++ [CallAsyncSendMessage "t" 0 hello; CallFlush].

(** Close twice, then the run loop sees closeCh and leaves through its
    deferred stop. *)
Definition closed_twice : list event :=
  [ CallClose; CloseSignal; CloseLocked client_fails;
    CallClose; CloseLocked all_fine;
    RunSelect None RunCloseCh; RunStop ].

(** The run loop reads an error and is preempted inside its deferred stop,
    between the swap of the flag and the close of closeCh; meanwhile a
    Close runs to its end. *)
Definition close_overtakes_run : list event :=
  [ RunSelect None (RunError (Some (ErrExternal 1))); RunStop;
    CallClose; CloseLocked all_fine ].

End Samples.


(** ** encoding/json, as far as [Config.String] exercises it

    A struct is seen by [json.Marshal] as its exported fields in order of
    declaration, each with its [json] tag.  A field tagged ["-"] is left
    out; otherwise the tag's name (up to the first comma) is the key, and
    the Go field name stands in for an empty one.  Booleans, integers,
    strings and nested structs are the only kinds the relay configuration
    has; none of them can make [Marshal] fail. *)

Module Json.

Inductive value :=
| VNull
| VBool (b : bool)
| VInt (z : Z)
| VString (s : string)
| VStruct (fields : list field)
with field :=
| Field (goName : string) (tag : string) (v : value).

Fixpoint before_comma (tag : string) : string :=
  match tag with
  | EmptyString => EmptyString
  | String c rest =>
      if Ascii.eqb c ","%char then EmptyString
      else String c (before_comma rest)
  end.

(** The key a field is written under; [None] for a field that is skipped. *)
Definition field_key (goName tag : string) : option string :=
  if String.eqb tag "-" then None
  else
    let name := before_comma tag in
    if String.eqb name EmptyString then Some goName else Some name.

Definition hex_digit (n : N) : ascii :=
  if (n <? 10)%N then ascii_of_N (48 + n) else ascii_of_N (87 + n).

(** [\u00XX] for a byte below 0x80. *)
Definition escape_u00 (c : ascii) : string :=
  let n := N_of_ascii c in
  String "\"%char (String "u"%char (String "0"%char (String "0"%char
    (String (hex_digit (n / 16)) (String (hex_digit (n mod 16)) EmptyString))))).

Definition quote : string := String (ascii_of_N 34) EmptyString.

(** One byte of a string literal, with HTML escaping on as [Marshal] has
    it.  Bytes from 0x80 up are copied: the strings are taken to be valid
    UTF-8 without U+2028 and U+2029. *)
Definition escape_byte (c : ascii) : string :=
  let n := N_of_ascii c in
  if (n =? 34)%N then (String "\"%char quote)
  else if (n =? 92)%N then "\\"%string
  else if (n =? 10)%N then "\n"%string
  else if (n =? 13)%N then "\r"%string
  else if (n =? 9)%N then "\t"%string
  else if (n <? 32)%N || (n =? 60)%N || (n =? 62)%N || (n =? 38)%N
       then escape_u00 c
  else String c EmptyString.

Fixpoint escape (s : string) : string :=
  match s with
  | EmptyString => EmptyString
  | String c rest => (escape_byte c ++ escape rest)%string
  end.

Definition encode_string (s : string) : string :=
  (quote ++ escape s ++ quote)%string.

Definition encode_int (z : Z) : string :=
  NilZero.string_of_int (Z.to_int z).

Fixpoint encode (v : value) : string :=
  match v with
  | VNull => "null"
  | VBool true => "true"
  | VBool false => "false"
  | VInt z => encode_int z
  | VString s => encode_string s
  | VStruct fields =>
      let fix members (fs : list field) (first : bool)
        : string :=
        match fs with
        | [] => EmptyString
        | Field goName tag fv :: rest =>
            match field_key goName tag with
            | None => members rest first
            | Some key =>
                ((if first then EmptyString else ",")
                 ++ encode_string key ++ ":" ++ encode fv
                 ++ members rest false)%string
            end
        end in
      ("{" ++ members fields true ++ "}")%string
  end.

(** [json.Marshal]: the bytes and the error. *)
Definition Marshal (v : value) : string * option error := (encode v, None).

End Json.

(** ** relay/config.go *)

Module relay.

Record DBConfig := {
  Host : string;
  User : string;
  Password : string;
  Port : Z
}.

Record Config := {
  EnableGTID : bool;
  AutoFixGTID : bool;
  MetaFile : string;
  RelayDir : string;
  ServerID : Z;
  Flavor : string;
  Charset : string;
  VerifyChecksum : bool;
  From : DBConfig
}.

(** The fields of the two structs with their [json] tags, as declared. *)
Definition DBConfig_fields (d : DBConfig) : Json.value :=
  Json.VStruct
    [ Json.Field "Host"%string "host"%string (Json.VString (Host d));
      Json.Field "User"%string "user"%string (Json.VString (User d));
      Json.Field "Password"%string "-"%string (Json.VString (Password d));
      Json.Field "Port"%string "port"%string (Json.VInt (Port d)) ].

Definition Config_fields (c : Config) : Json.value :=
  Json.VStruct
    [ Json.Field "EnableGTID"%string "enable-gtid"%string (Json.VBool (EnableGTID c));
      Json.Field "AutoFixGTID"%string "auto-fix-gtid"%string (Json.VBool (AutoFixGTID c));
      Json.Field "MetaFile"%string "meta-file"%string (Json.VString (MetaFile c));
      Json.Field "RelayDir"%string "relay-dir"%string (Json.VString (RelayDir c));
      Json.Field "ServerID"%string "server-id"%string (Json.VInt (ServerID c));
      Json.Field "Flavor"%string "flavor"%string (Json.VString (Flavor c));
      Json.Field "Charset"%string "charset"%string (Json.VString (Charset c));
      Json.Field "VerifyChecksum"%string "verify-checksum"%string
         (Json.VBool (VerifyChecksum c));
      Json.Field "From"%string "data-source"%string (DBConfig_fields (From c)) ].

Definition with_password (c : Config) (p : string) : Config :=
  {| EnableGTID := EnableGTID c; AutoFixGTID := AutoFixGTID c;
     MetaFile := MetaFile c; RelayDir := RelayDir c; ServerID := ServerID c;
     Flavor := Flavor c; Charset := Charset c;
     VerifyChecksum := VerifyChecksum c;
     From := {| Host := Host (From c); User := User (From c);
                Password := p; Port := Port (From c) |} |}.

(** Two configurations that agree on every field but the password. *)
Definition same_but_password (c1 c2 : Config) : Prop :=
  EnableGTID c1 = EnableGTID c2 ∧ AutoFixGTID c1 = AutoFixGTID c2 ∧
  MetaFile c1 = MetaFile c2 ∧ RelayDir c1 = RelayDir c2 ∧
  ServerID c1 = ServerID c2 ∧ Flavor c1 = Flavor c2 ∧
  Charset c1 = Charset c2 ∧ VerifyChecksum c1 = VerifyChecksum c2 ∧
  Host (From c1) = Host (From c2) ∧ User (From c1) = User (From c2) ∧
  Port (From c1) = Port (From c2).

(** [(c *Config) String()]; a nil receiver marshals as [null]. *)
Definition String (c : option Config) : string :=
  let '(cfg, err) :=
    Json.Marshal (match c with
                  | Some c => Config_fields c
                  | None => Json.VNull
                  end) in
  cfg.

End relay.

(** ** AdjustOptions over any SetPartitionNum

    [Options.SetPartitionNum] is a method of [pkg/sink/kafka].  Here
    AdjustOptions is written once more with that method as a parameter, so
    that what is proved of it holds whatever the method does. *)

Module AdjustWith.
Import kafka Adjust.

Definition AdjustOptions_with
    (setPartitionNum : Options -> Z -> Options * option error)
    (admin : ClusterAdminClient) (options : Options) (topic : string)
  : Options * option error :=
  match GetAllTopicsMeta admin with
  | Err err => (options, Some (Trace err))
  | Ok topics =>
    match validateMinInsyncReplicas admin topics topic
            (ReplicationFactor options) with
    | Some err => (options, Some (Trace err))
    | None =>
      match topics !! topic with
      | Some info =>
        match getTopicConfig admin info TopicMaxMessageBytesConfigName
                BrokerMessageMaxBytesConfigName with
        | Err err => (options, Some (Trace err))
        | Ok topicMaxMessageBytesStr =>
          match Strconv.Atoi topicMaxMessageBytesStr with
          | Err err => (options, Some (Trace err))
          | Ok topicMaxMessageBytes =>
            let options :=
              if topicMaxMessageBytes <? MaxMessageBytes options
              then set_MaxMessageBytes options topicMaxMessageBytes
              else options in
            match setPartitionNum options (NumPartitions info) with
            | (options, Some err) => (options, Some (Trace err))
            | (options, None) => (options, None)
            end
          end
        end
      | None =>
        match GetBrokerConfig admin BrokerMessageMaxBytesConfigName with
        | Err err => (options, Some (Trace err))
        | Ok brokerMessageMaxBytesStr =>
          match Strconv.Atoi brokerMessageMaxBytesStr with
          | Err err => (options, Some (Trace err))
          | Ok brokerMessageMaxBytes =>
            let options :=
              if brokerMessageMaxBytes <? MaxMessageBytes options
              then set_MaxMessageBytes options brokerMessageMaxBytes
              else options in
            let options :=
              if PartitionNum options =? 0
              then set_PartitionNum options defaultPartitionNum
              else options in
            (options, None)
          end
        end
      end
    end
  end.

(** A SetPartitionNum that rejects a configured count above the topic's
    and otherwise keeps a configured count, for the samples. *)
Definition strict_SetPartitionNum (o : Options) (realPartitionCount : Z)
  : Options * option error :=
  if PartitionNum o =? 0 then (set_PartitionNum o realPartitionCount, None)
  else if realPartitionCount <? PartitionNum o then (o, Some (ErrExternal 9))
  else (o, None).

End AdjustWith.

(** ** Reading JSON text back

    What a reader of the text does with the start of a string literal: the
    byte that one escaped unit stands for, and the text after it; [None] at
    the closing quote and on text that is no unit.  And the characters an
    integer is written with. *)

Module JsonRead.

Definition hex_value (a : ascii) : option N :=
  let n := N_of_ascii a in
  if (48 <=? n)%N && (n <=? 57)%N then Some (n - 48)%N
  else if (97 <=? n)%N && (n <=? 102)%N then Some (n - 87)%N
  else None.

Definition unescape_head (s : string) : option (ascii * string) :=
  match s with
  | EmptyString => None
  | String c rest =>
      if (N_of_ascii c =? 34)%N then None
      else if (N_of_ascii c =? 92)%N then
        match rest with
        | EmptyString => None
        | String t rest1 =>
            let n := N_of_ascii t in
            if (n =? 34)%N then Some (ascii_of_N 34, rest1)
            else if (n =? 92)%N then Some (ascii_of_N 92, rest1)
            else if (n =? 110)%N then Some (ascii_of_N 10, rest1)
            else if (n =? 114)%N then Some (ascii_of_N 13, rest1)
            else if (n =? 116)%N then Some (ascii_of_N 9, rest1)
            else if (n =? 117)%N then
              match rest1 with
              | String _ (String _ (String h (String l rest2))) =>
                  match hex_value h, hex_value l with
                  | Some a, Some b => Some (ascii_of_N (16 * a + b), rest2)
                  | _, _ => None
                  end
              | _ => None
              end
            else None
        end
      else Some (c, rest)
  end.

Definition is_numeric (a : ascii) : bool :=
  let n := N_of_ascii a in
  (n =? 45)%N || ((48 <=? n)%N && (n <=? 57)%N).

Fixpoint all_numeric (s : string) : bool :=
  match s with
  | EmptyString => true
  | String a rest => is_numeric a && all_numeric rest
  end.

(** The strings on which [Json.escape] is [encoding/json] to the byte:
    those of bytes below 0x80.  (From 0x80 up the encoder decodes UTF-8,
    writes U+2028 and U+2029 as escapes and replaces what is not UTF-8.) *)
Fixpoint is_ascii (s : string) : bool :=
  match s with
  | EmptyString => true
  | String a rest => (N_of_ascii a <? 128)%N && is_ascii rest
  end.

(** The strings of a configuration that [Config.String] writes. *)
Definition shown_strings (c : relay.Config) : list string :=
  [ relay.MetaFile c; relay.RelayDir c; relay.Flavor c; relay.Charset c;
    relay.Host (relay.From c); relay.User (relay.From c) ].

Definition ascii_config (c : relay.Config) : bool :=
  forallb is_ascii (shown_strings c).

End JsonRead.

(** ** More sample executions and configurations *)

Module MoreSamples.
Import Producer Samples.

(** A message is in the asynchronous producer's hands and Flush waits. *)
Definition flush_waiting : list event := send_only ++ [CallFlush].

(** The same, and the run loop has read the acknowledgement. *)
Definition ack_in_hand : list event :=
  flush_waiting ++ [RunSelect None (RunSuccess (Some 0%nat))].

(** The same, and the run loop has counted it off. *)
Definition flush_signalled : list event := ack_in_hand ++ [RunCount].

(** A send gives up on its context after counting its message. *)
Definition send_abandoned : list event :=
  [ CallAsyncSendMessage "t" 0 hello; AsyncSendCount;
    AsyncSendSelect (Some ContextCanceled) SendCtxDone ].

(** The sender is at its select. *)
Definition sender_inside : list event :=
  [CallAsyncSendMessage "t" 0 hello; AsyncSendCount].

(** The run loop reads an error and goes through its deferred stop. *)
Definition run_failed : list event :=
  [RunSelect None (RunError (Some (ErrExternal 1))); RunStop; RunSignal].

(** A topic of two partitions without entries of its own, on a broker
    that wants three replicas in sync. *)
Definition plain_topic_admin : kafka.ClusterAdminClient :=
  admin_of [("t"%string, topic_with 2 [])]
           [("min.insync.replicas"%string, "3"%string)].

(** A topic of two partitions with a maximal message size of 900. *)
Definition small_topic_admin : kafka.ClusterAdminClient :=
  admin_of [("t"%string, topic_with 2 [("max.message.bytes"%string, "900"%string)])]
           [("min.insync.replicas"%string, "1"%string)].

(** A broker that shows neither of the two settings. *)
Definition silent_broker_admin : kafka.ClusterAdminClient := admin_of [] [].

(** A broker whose message.max.bytes is not a number. *)
Definition garbled_broker_admin : kafka.ClusterAdminClient :=
  admin_of [] [("min.insync.replicas"%string, "1"%string);
               ("message.max.bytes"%string, "1MB"%string)].

(** A broker with a maximal message size of 500 and no topic. *)
Definition empty_broker_admin : kafka.ClusterAdminClient :=
  admin_of [] [("message.max.bytes"%string, "500"%string);
               ("min.insync.replicas"%string, "1"%string)].

Definition sample_config (host password : string) : relay.Config :=
  {| relay.EnableGTID := true; relay.AutoFixGTID := false;
     relay.MetaFile := "relay.meta"; relay.RelayDir := "./relay";
     relay.ServerID := 101; relay.Flavor := "mysql";
     relay.Charset := "utf8"; relay.VerifyChecksum := false;
     relay.From := {| relay.Host := host; relay.User := "root";
                      relay.Password := password; relay.Port := 3306 |} |}.

End MoreSamples.

(** * Theorems *)

(** ** Option reconciliation *)

Section AdjustOptions_facts.
Import kafka Adjust.

Variable admin : ClusterAdminClient.

Lemma getter_resolves topics topic :
  minInsyncReplicasConfigGetter admin topics topic =
  match applicable_min_insync_str admin topics topic with
  | Ok s => (s, bool_decide (is_Some (topics !! topic)), None)
  | Err e => (EmptyString, bool_decide (is_Some (topics !! topic)), Some e)
  end.
Proof.
  unfold minInsyncReplicasConfigGetter, applicable_min_insync_str,
    getTopicConfig, MinInsyncReplicasConfigName.
  destruct (topics !! topic) as [info|]; simpl.
  - destruct (ConfigEntries info !! _); [reflexivity|].
    destruct (GetBrokerConfig admin _); reflexivity.
  - destruct (GetBrokerConfig admin _); reflexivity.
Qed.

Lemma Atoi_error_is_strconv s e :
  Strconv.Atoi s = Err e → is_invalid_config e = false.
Proof.
  unfold Strconv.Atoi. intros H.
  repeat case_match; simplify_eq; reflexivity.
Qed.

Lemma validate_invalid_iff topics topic rf :
  (∀ name e, GetBrokerConfig admin name = Err e → is_invalid_config e = false) →
  (∃ e, validateMinInsyncReplicas admin topics topic rf = Some e
        ∧ is_invalid_config e = true)
  ↔ (∃ s v, applicable_min_insync_str admin topics topic = Ok s
            ∧ Strconv.Atoi s = Ok v ∧ rf < v).
Proof.
  intros Hadm. unfold validateMinInsyncReplicas. rewrite getter_resolves.
  destruct (applicable_min_insync_str admin topics topic) as [s|e] eqn:Hs.
  - destruct (Strconv.Atoi s) as [v|e] eqn:Hv.
    + destruct (Z.ltb_spec rf v) as [Hlt|Hge]; split.
      * intros _. exists s, v. auto.
      * intros _. eexists. split; [reflexivity|reflexivity].
      * intros (e & He & _). discriminate.
      * intros (s' & v' & Hs' & Hv' & Hlt). simplify_eq.
        assert (v = v') by congruence. lia.
    + split.
      * intros (e' & He & Hinv). simplify_eq.
        apply Atoi_error_is_strconv in Hv. congruence.
      * intros (s' & v' & Hs' & Hv' & _). simplify_eq. congruence.
  - assert (is_invalid_config e = false) as Hne.
    { unfold applicable_min_insync_str in Hs.
      repeat case_match; simplify_eq; eauto. }
    split.
    + intros (e' & He & Hinv).
      destruct (is_broker_config_not_found e); simplify_eq. congruence.
    + intros (s' & v' & Hs' & _). discriminate.
Qed.

(** C3: AdjustOptions fails with the configuration-invalid error exactly
    when the applicable min.insync.replicas (the topic's entry when the
    topic exists and carries one, the broker's value otherwise) is greater
    than options.ReplicationFactor; and a broker-config-not-found error in
    that lookup makes validateMinInsyncReplicas return nil.  The admin
    client is taken to return only errors of its own. *)
Theorem AdjustOptions_invalid_config_iff options topic :
  admin_errors_foreign admin →
  (returned_invalid_config (AdjustOptions admin options topic) = true
   ↔ ∃ v, applicable_min_insync admin topic = Some v
          ∧ ReplicationFactor options < v)
  ∧ (∀ topics rf,
       applicable_min_insync_str admin topics topic
         = Err ErrKafkaBrokerConfigNotFound →
       validateMinInsyncReplicas admin topics topic rf = None).
Proof.
  intros [Hmeta Hbroker]. split.
  - unfold returned_invalid_config, AdjustOptions, applicable_min_insync, Trace.
    destruct (GetAllTopicsMeta admin) as [topics|e] eqn:Htopics; simpl.
    { pose proof (validate_invalid_iff topics topic
                    (ReplicationFactor options) Hbroker) as Hiff.
      destruct (validateMinInsyncReplicas admin topics topic
                  (ReplicationFactor options)) as [e|] eqn:Hval; simpl.
      - split.
        + intros Hinv. destruct Hiff as [Hiff _].
          destruct Hiff as (s & v & Hs & Hv & Hlt); [eauto|].
          exists v. rewrite Hs, Hv. auto.
        + intros (v & Hv & Hlt). destruct Hiff as [_ Hiff].
          destruct Hiff as (e' & He' & Hinv).
          { destruct (applicable_min_insync_str admin topics topic) as [s|];
              [|discriminate].
            destruct (Strconv.Atoi s) as [v'|] eqn:Hs; [|discriminate].
            exists s, v'. repeat split; congruence. }
          congruence.
      - split.
        + intros Hinv. exfalso.
          unfold getTopicConfig, SetPartitionNum in Hinv.
          repeat case_match; simpl in *; simplify_eq;
            try discriminate;
            try (erewrite Atoi_error_is_strconv in Hinv by eassumption;
                 discriminate);
            try (erewrite Hbroker in Hinv by eassumption; discriminate).
        + intros (v & Hv & Hlt). exfalso.
          destruct Hiff as [_ Hiff].
          destruct Hiff as (e' & He' & _); [|discriminate].
          destruct (applicable_min_insync_str admin topics topic) as [s|];
            [|discriminate].
          destruct (Strconv.Atoi s) as [v'|] eqn:Hs; [|discriminate].
          exists s, v'. repeat split; congruence. }
    split.
    + intros Hinv. rewrite (Hmeta e) in Hinv by reflexivity. discriminate.
    + intros (v & Hv & _). discriminate.
  - intros topics rf Hnf. unfold validateMinInsyncReplicas.
    rewrite getter_resolves, Hnf. reflexivity.
Qed.

(** C4: when the topic exists, min.insync.replicas validation passes and
    the topic's effective max.message.bytes (its own entry, else the
    broker's message.max.bytes) reads as the number [m], AdjustOptions
    returns nil, MaxMessageBytes is the smaller of the configured value and
    [m], and PartitionNum is the topic's partition count. *)
Theorem AdjustOptions_topic_exists options topic topics info s m :
  GetAllTopicsMeta admin = Ok topics →
  topics !! topic = Some info →
  validateMinInsyncReplicas admin topics topic (ReplicationFactor options)
    = None →
  (ConfigEntries info !! "max.message.bytes"%string = Some s
   ∨ (ConfigEntries info !! "max.message.bytes"%string = None
      ∧ GetBrokerConfig admin "message.max.bytes" = Ok s)) →
  Strconv.Atoi s = Ok m →
  AdjustOptions admin options topic =
    ({| MaxMessageBytes := Z.min (MaxMessageBytes options) m;
        PartitionNum := NumPartitions info;
        ReplicationFactor := ReplicationFactor options;
        AutoCreate := AutoCreate options |}, None).
Proof.
  intros Hmeta Hinfo Hval Hcfg Hm.
  unfold AdjustOptions. rewrite Hmeta, Hval, Hinfo.
  assert (getTopicConfig admin info TopicMaxMessageBytesConfigName
            BrokerMessageMaxBytesConfigName = Ok s) as ->.
  { unfold getTopicConfig, TopicMaxMessageBytesConfigName,
      BrokerMessageMaxBytesConfigName.
    destruct Hcfg as [-> | [-> ->]]; reflexivity. }
  rewrite Hm. unfold SetPartitionNum, set_PartitionNum, set_MaxMessageBytes.
  destruct (Z.ltb_spec m (MaxMessageBytes options)); simpl;
    do 2 f_equal; lia.
Qed.

(** C5: when the topic does not exist, min.insync.replicas validation
    passes and the broker's message.max.bytes reads as the number [m],
    AdjustOptions returns nil, MaxMessageBytes is the smaller of the
    configured value and [m], and a PartitionNum of 0 becomes the default
    3 (any other PartitionNum is kept). *)
Theorem AdjustOptions_topic_missing options topic topics s m :
  GetAllTopicsMeta admin = Ok topics →
  topics !! topic = None →
  validateMinInsyncReplicas admin topics topic (ReplicationFactor options)
    = None →
  GetBrokerConfig admin "message.max.bytes" = Ok s →
  Strconv.Atoi s = Ok m →
  AdjustOptions admin options topic =
    ({| MaxMessageBytes := Z.min (MaxMessageBytes options) m;
        PartitionNum :=
          if PartitionNum options =? 0 then 3 else PartitionNum options;
        ReplicationFactor := ReplicationFactor options;
        AutoCreate := AutoCreate options |}, None).
Proof.
  intros Hmeta Hinfo Hval Hcfg Hm.
  unfold AdjustOptions. rewrite Hmeta, Hval, Hinfo.
  unfold BrokerMessageMaxBytesConfigName. rewrite Hcfg, Hm.
  unfold set_PartitionNum, set_MaxMessageBytes, defaultPartitionNum.
  destruct options as [mb pn rf ac]; simpl.
  destruct (Z.ltb_spec m mb); simpl;
    destruct (pn =? 0); simpl; do 2 f_equal; lia.
Qed.

End AdjustOptions_facts.

Lemma admin_of_errors_foreign topics broker :
  Adjust.admin_errors_foreign (admin_of topics broker).
Proof.
  split; simpl.
  - intros e He. discriminate.
  - intros name e. unfold broker_table.
    destruct (_ !! name); intros He; simplify_eq. reflexivity.
Qed.


(** Scenario: replicationFactor = 1, topic-level min.insync.replicas = 2. *)
Lemma AdjustOptions_invalid_config_iff_witness :
  let admin := admin_of [("t"%string, topic_with 4 [("min.insync.replicas"%string, "2"%string)])] [] in
  Adjust.admin_errors_foreign admin
  ∧ Adjust.returned_invalid_config
      (Adjust.AdjustOptions admin (options_of 1000 0 1) "t") = true.
Proof.
  intros admin.
  pose proof (admin_of_errors_foreign
                [("t"%string, topic_with 4 [("min.insync.replicas"%string, "2"%string)])] [])
    as Hforeign.
  split; [exact Hforeign|].
  apply (proj1 (AdjustOptions_invalid_config_iff admin (options_of 1000 0 1) "t" Hforeign)).
  exists 2. split; [vm_compute; reflexivity | simpl; lia].
Defined.

(** Scenario: the topic exists with max.message.bytes = 900 and four
    partitions, the configured maxMessageBytes is 1000. *)
Lemma AdjustOptions_topic_exists_witness :
  let info := topic_with 4 [("max.message.bytes"%string, "900"%string)] in
  let admin := admin_of [("t"%string, info)] [("min.insync.replicas"%string, "1"%string)] in
  Adjust.AdjustOptions admin (options_of 1000 7 1) "t" = (options_of 900 4 1, None).
Proof.
  intros info admin.
  apply (AdjustOptions_topic_exists admin (options_of 1000 7 1) "t"
           (list_to_map [("t"%string, info)]) info "900" 900).
  - reflexivity.
  - vm_compute; reflexivity.
  - vm_compute; reflexivity.
  - left. vm_compute; reflexivity.
  - vm_compute; reflexivity.
Defined.

(** Scenario: the topic does not exist, the broker's message.max.bytes is
    500, the configured maxMessageBytes is 1000 and partitionCount is 0. *)
Lemma AdjustOptions_topic_missing_witness :
  let admin := admin_of [] [("message.max.bytes"%string, "500"%string);
                            ("min.insync.replicas"%string, "1"%string)] in
  Adjust.AdjustOptions admin (options_of 1000 0 1) "t" = (options_of 500 3 1, None).
Proof.
  intros admin.
  apply (AdjustOptions_topic_missing admin (options_of 1000 0 1) "t"
           (list_to_map []) "500" 500).
  - reflexivity.
  - vm_compute; reflexivity.
  - vm_compute; reflexivity.
  - vm_compute; reflexivity.
  - vm_compute; reflexivity.
Defined.


(** ** The producer *)

Section Producer_facts.
Import Producer.

Lemma wrap_int64_small z :
  - 2 ^ 63 ≤ z < 2 ^ 63 → GoInt.wrap_int64 z = z.
Proof.
  intros Hz. unfold GoInt.wrap_int64.
  rewrite Z.mod_small by lia. lia.
Qed.

(** *** Executions *)

Lemma exec_app tr1 tr2 w :
  exec (tr1 ++ tr2) w =
  and_then (exec tr1 w) (fun '(w1, o1) =>
  and_then (exec tr2 w1) (fun '(w2, o2) => Next (w2, o1 ++ o2))).
Proof.
  revert w. induction tr1 as [|e tr1 IH]; intros w; simpl.
  - destruct (exec tr2 w) as [[w2 o2]| |]; reflexivity.
  - destruct (step e w) as [[w1 o1]| |]; simpl; [|reflexivity..].
    rewrite IH. destruct (exec tr1 w1) as [[w2 o2]| |]; simpl; [|reflexivity..].
    destruct (exec tr2 w2) as [[w3 o3]| |]; simpl; [|reflexivity..].
    by rewrite (assoc_L (++)).
Qed.

Lemma exec_snoc_Next tr e w w' log :
  exec (tr ++ [e]) w = Next (w', log) →
  ∃ w1 log1 o, exec tr w = Next (w1, log1) ∧ step e w1 = Next (w', o)
               ∧ log = log1 ++ o.
Proof.
  rewrite exec_app. destruct (exec tr w) as [[w1 log1]| |]; simpl; [|done..].
  destruct (step e w1) as [[w2 o]| |] eqn:He; simpl; [|done..].
  rewrite (right_id_L [] (++)). intros [= <- <-]. by exists w1, log1, o.
Qed.

(** A property of executions that holds at the start and is kept by every
    piece of code holds after every execution. *)
Lemma exec_invariant_trace (P : list event → world → list obs → Prop) :
  P [] init [] →
  (∀ tr w log e w' o,
     P tr w log → step e w = Next (w', o) → P (tr ++ [e]) w' (log ++ o)) →
  ∀ tr w log, exec tr init = Next (w, log) → P tr w log.
Proof.
  intros Hinit Hstep tr. induction tr as [|e tr IH] using rev_ind; intros w log.
  - simpl. by intros [= <- <-].
  - intros (w1 & log1 & o & Htr & He & ->)%exec_snoc_Next. eauto.
Qed.

Lemma exec_invariant (P : nat → world → list obs → Prop) :
  P 0%nat init [] →
  (∀ n w log e w' o,
     P n w log → step e w = Next (w', o) → P (S n) w' (log ++ o)) →
  ∀ tr w log, exec tr init = Next (w, log) → P (length tr) w log.
Proof.
  intros Hinit Hstep.
  apply (exec_invariant_trace (λ tr, P (length tr))); [done|].
  intros tr w log e w' o. rewrite length_app, Nat.add_1_r. apply Hstep.
Qed.

(** *** Where the counted messages are *)

Lemma flow_lengths n w log :
  flow n w log →
  length (counted log)
  = (length (decremented log) + length (runner_hand w)
     + length (accepted (sarama w)) + length (abandoned log)
     + length (caller_hand w))%nat.
Proof.
  intros [Hc Hh Ha _ _ _ _ _].
  apply Permutation_length in Hc, Hh, Ha.
  rewrite !length_app in *. lia.
Qed.

Ltac step_cases H :=
  simpl in H;
  unfold and_then, AsyncSendMessage_failpoint, AsyncSendMessage_select,
    SyncBroadcastMessage, Flush_enter, Flush_select, stop_swap, stop_close,
    Close_locked, release, run_select, run_count, and_then in H;
  repeat (case_match; simplify_eq; try discriminate);
  simplify_eq.

Lemma flow_init : flow 0 init [].
Proof. constructor; simpl; try done. Qed.

Lemma lookup_snoc_fresh (l : list nat) : (l ++ [0%nat]) !! length l = Some 0%nat.
Proof. by rewrite lookup_app_r, Nat.sub_diag by lia. Qed.

Lemma lookup_snoc_old (l : list nat) d x :
  l !! d = Some x → (l ++ [0%nat]) !! d = Some x.
Proof. intros H. by rewrite lookup_app_l by (by eapply lookup_lt_Some). Qed.

Ltac use_pcs :=
  repeat match goal with
         | E : caller ?w = _ |- context [caller ?w] => rewrite E
         | E : runner ?w = _ |- context [runner ?w] => rewrite E
         end.

Ltac use_pcs_in_hyps :=
  repeat match goal with
         | E : caller ?w = _, H : context [caller ?w] |- _ =>
             tryif constr_eq H E then fail else rewrite E in H
         | E : runner ?w = _, H : context [runner ?w] |- _ =>
             tryif constr_eq H E then fail else rewrite E in H
         end.

Ltac eqb_to_prop :=
  repeat match goal with
         | H : (_ =? _) = true |- _ => apply Z.eqb_eq in H
         | H : (_ =? _) = false |- _ => apply Z.eqb_neq in H
         end.

Lemma flow_step n w log e w' o :
  Z.of_nat (S n) < 2 ^ 63 →
  flow n w log → step e w = Next (w', o) → flow (S n) w' (log ++ o).
Proof.
  intros Hn Hflow Hstep.
  pose proof (flow_lengths _ _ _ Hflow) as Hlen.
  destruct Hflow as [Hc Hh Ha Hi Hb Hf Hw Hl].
  unfold caller_hand, runner_hand in *.
  destruct e; step_cases Hstep.
  all: try match goal with
           | E : accepted _ !! _ = Some _ |- _ =>
               pose proof (delete_Permutation _ _ _ E) as Hd
           end.
  all: constructor; unfold caller_hand, runner_hand, counted, handed,
         abandoned, acked, decremented in *; simpl in *; use_pcs;
       rewrite ?omap_app; simpl; rewrite ?(right_id_L [] (++)) in *.
  all: try assumption; try lia; try done.
  all: try (rewrite wrap_int64_small; rewrite ?length_app in *; simpl in *; lia).
  all: try (rewrite ?length_app in *; simpl in *; lia).
  all: try (first [rewrite Hc | rewrite Hh | rewrite Ha]; solve_Permutation).
  all: try (rewrite Hh; etrans; [apply Permutation_app_head, Hd|];
            solve_Permutation).
  all: try (intros d Hfd; apply lookup_snoc_old; auto; fail).
  all: try (intros d [= <-]; apply lookup_snoc_fresh).
  all: try (intros d b [= <-]; rewrite lookup_snoc_fresh; done).
  all: try (intros d Hfd; destruct (decide (d = done)) as [->|];
            [apply Hf in Hfd; congruence
            |rewrite list_lookup_insert_ne by done; auto]; fail).
  all: try (intros d b Hfw Hch; pose proof (Hw _ _ Hfw Hch); lia).
  all: try (intros Hl'; rewrite ?last_app in Hl'; simpl in Hl'; simplify_eq;
            first [ by auto | apply Z.eqb_eq; assumption | eapply Hw; by eauto ]).
Qed.

Lemma flow_exec tr w log :
  exec tr init = Next (w, log) →
  Z.of_nat (length tr) < 2 ^ 63 →
  flow (length tr) w log.
Proof.
  intros Hexec.
  apply (exec_invariant (λ n w log, Z.of_nat n < 2 ^ 63 → flow n w log));
    [intros _; apply flow_init| |assumption].
  intros n w0 log0 e w' o HP Hstep Hn.
  eapply flow_step; [assumption| |eassumption].
  apply HP. lia.
Qed.

(** With nothing in flight every counted message has been acknowledged. *)
Lemma flow_drained n w log :
  flow n w log → mu_inflight (prod w) = 0 →
  counted log ≡ₚ acked log ∧ abandoned log = []
  ∧ accepted (sarama w) = [] ∧ caller_hand w = [] ∧ runner_hand w = [].
Proof.
  intros Hflow H0. pose proof (flow_lengths _ _ _ Hflow) as Hlen.
  destruct Hflow as [Hc Hh Ha Hi _ _ _ _].
  assert (length (runner_hand w) = 0 ∧ length (accepted (sarama w)) = 0
          ∧ length (abandoned log) = 0 ∧ length (caller_hand w) = 0)%nat
    as (Hr%nil_length_inv & Hacc%nil_length_inv & Hab%nil_length_inv
        & Hca%nil_length_inv) by lia.
  rewrite Hr, Hacc, Hab, Hca in *.
  rewrite !(right_id_L [] (++)) in *.
  split; [|done]. by rewrite Hc, Hh.
Qed.

(** The messages counted in flight are among those AsyncSendMessage was
    called with. *)
Lemma counted_submitted tr w log :
  exec tr init = Next (w, log) → counted log ⊆+ submitted tr.
Proof.
  intros Hexec.
  pose (hand := λ w, match caller w with SendChecked msg => [msg] | _ => [] end).
  cut (counted log ++ hand w ⊆+ submitted tr).
  { intros H. etrans; [|exact H]. apply submseteq_inserts_r. done. }
  revert tr w log Hexec. apply exec_invariant_trace; [done|].
  intros tr w log e w' o IH Hstep. unfold counted, submitted in *.
  rewrite !omap_app.
  destruct e; step_cases Hstep; unfold hand in *; simpl in *;
    use_pcs_in_hyps; use_pcs; rewrite ?(right_id_L [] (++)) in *;
    try assumption;
    try (by apply submseteq_app);
    try (etrans; [|exact IH]; apply submseteq_inserts_r; done);
    try (etrans; [exact IH|]; apply submseteq_inserts_r; done).
Qed.

(** *** Shutdown *)

Lemma shutdown_init : shutdown init [].
Proof.
  constructor; simpl; try done.
  intros ret Hret. by apply elem_of_nil in Hret.
Qed.

Lemma shutdown_step w log e w' o :
  shutdown w log → step e w = Next (w', o) → shutdown w' (log ++ o).
Proof.
  intros Hsd Hstep.
  destruct e; step_cases Hstep; unfold AsyncSendMessage_closing in *;
    eqb_to_prop.
  all: destruct Hsd as [Hrun Hcl Hsig Hrel Hrels Hrl Hret].
  all: unfold signalling, rlock_held, swaps, signals, releases,
         kafkaProducerRunning, kafkaProducerClosing, is_closed in *;
       simpl in *; use_pcs_in_hyps.
  all: match type of Hrun with
       | closing (prod ?w0) = _ → _ =>
           destruct (decide (closing (prod w0) = 0)) as [Hz|Hnz];
           [destruct (Hrun Hz) as (Hsw & Hsg & Hch & Hcw & Hpr)
           |destruct (Hcl Hnz) as (Hc1 & [m Hsw] & Hsg)]; clear Hrun Hcl;
           try lia;
           destruct (producersReleased (prod w0)) eqn:Hp;
           destruct (closeCh (prod w0)) eqn:Hc; simplify_eq; try lia
       end.
  all: constructor; unfold signalling, rlock_held, swaps, signals, releases,
         returns, kafkaProducerRunning, kafkaProducerClosing in *;
       simpl in *; use_pcs;
       rewrite ?omap_app, ?fmap_app; simpl; rewrite ?(right_id_L [] (++)) in *;
       rewrite ?Hp, ?Hc.
  all: try assumption; try done; try lia.
  all: try (intros ret [Hin|Hin%list_elem_of_singleton]%elem_of_app; by auto).
  all: try (rewrite ?length_app; simpl; lia).
  all: try (intros Hrl'; congruence).
  all: try (rewrite ?Hrel, ?Hrels; reflexivity).
  all: try (intros _; repeat split; try lia; try done;
            first [ exists 0%nat; rewrite Hsw, ?Hz; reflexivity
                  | exists (S m); rewrite Hsw, ?Hc1; simpl;
                    by rewrite replicate_cons_app
                  | by eauto ]; fail).
Qed.

Lemma shutdown_exec tr w log :
  exec tr init = Next (w, log) → shutdown w log.
Proof.
  apply (exec_invariant (λ _ w log, shutdown w log)); [apply shutdown_init|].
  intros _ w0 log0 e w' o. apply shutdown_step.
Qed.

(** No piece of code runs into one of the panics of [outcome] in a state an
    execution can reach: [closeCh] is not closed twice, no handle is closed
    twice, and nothing is sent to [Input()] after the asynchronous producer
    was closed. *)
Lemma step_no_panic w log e : shutdown w log → step e w ≠ Panic.
Proof.
  intros Hsd Hstep.
  destruct e; simpl in Hstep;
    unfold and_then, AsyncSendMessage_failpoint, AsyncSendMessage_select,
      SyncBroadcastMessage, Flush_enter, Flush_select, stop_swap, stop_close,
      Close_locked, release, run_select, run_count, and_then in Hstep;
    repeat (case_match; simplify_eq; try discriminate).
  all: destruct Hsd as [Hrun Hcl Hsig Hrel Hrels Hrl Hret].
  all: unfold signalling, rlock_held, kafkaProducerRunning,
         kafkaProducerClosing, is_closed in *;
       simpl in *; use_pcs_in_hyps.
  all: try specialize (Hrl eq_refl).
  all: match type of Hrun with
       | closing (prod ?w0) = _ → _ =>
           destruct (decide (closing (prod w0) = 0)) as [Hz|Hnz];
           [destruct (Hrun Hz) as (Hsw & Hsg & Hch & Hcw & Hpr)
           |destruct (Hcl Hnz) as (Hc1 & [m Hsw] & Hsg)]; clear Hrun Hcl;
           try lia;
           destruct (producersReleased (prod w0)) eqn:Hp;
           destruct (closeCh (prod w0)) eqn:Hc; simplify_eq; try lia
       end.
  all: rewrite ?fmap_app in *; simpl in *; rewrite ?Hrel in *;
       repeat match goal with
              | H : bool_decide _ = _ |- _ => vm_compute in H
              end; discriminate.
Qed.


(** *** Flush and the acknowledgements *)

(** C2: after any execution (of fewer than 2^63 pieces of code, so that the
    int64 counter cannot wrap) the inflight counter is not negative, and it
    is 0 when the last thing that happened is a Flush returning nil.  The
    asynchronous producer reports on Successes() only messages it took from
    Input(), each once. *)
Theorem inflight_nonnegative tr w log :
  exec tr init = Next (w, log) →
  Z.of_nat (length tr) < 2 ^ 63 →
  0 ≤ mu_inflight (prod w)
  ∧ (last log = Some (Returned FnFlush None) → mu_inflight (prod w) = 0).
Proof.
  intros Hexec Hn. pose proof (flow_exec _ _ _ Hexec Hn) as Hflow.
  pose proof (flow_lengths _ _ _ Hflow) as Hlen.
  split; [|apply (flow_flushed _ _ _ Hflow)].
  rewrite (flow_inflight _ _ _ Hflow). lia.
Qed.

(** C1, as amended: when Flush returns nil, every message that an
    AsyncSendMessage call has counted in flight (the call found the producer
    not closing and went on to the send) has been handed to the asynchronous
    producer and read back from Successes() by the run loop before: none is
    still held by the producer, none was left behind at the select.  The
    counted messages are among those AsyncSendMessage was called with. *)
Theorem Flush_nil_after_all_acked tr w log :
  exec tr init = Next (w, log) →
  Z.of_nat (length tr) < 2 ^ 63 →
  last log = Some (Returned FnFlush None) →
  counted log ≡ₚ acked log
  ∧ handed log ≡ₚ acked log
  ∧ abandoned log = []
  ∧ accepted (sarama w) = []
  ∧ counted log ⊆+ submitted tr.
Proof.
  intros Hexec Hn Hlast. pose proof (flow_exec _ _ _ Hexec Hn) as Hflow.
  pose proof (flow_flushed _ _ _ Hflow Hlast) as H0.
  destruct (flow_drained _ _ _ Hflow H0) as (Hca & Hab & Hacc & _ & _).
  split_and!; try done; [|by eapply counted_submitted].
  rewrite (flow_handed _ _ _ Hflow), Hacc. by rewrite (right_id_L [] (++)).
Qed.

(** C6: called with the inflight counter at 0, Flush returns nil in the
    same breath and leaves the producer as it was (no waiter is
    registered).  Otherwise it registers its fresh channel in flushDone and
    goes to the select; there, as long as its context is live and its
    channel empty, it stays blocked while closeCh is open, and once closeCh
    is closed the only way out of the select is the one that returns
    ErrKafkaFlushUnfinished, and that way is open. *)
Theorem Flush_immediate_or_waits w :
  caller w = CallerIdle →
  (mu_inflight (prod w) = 0 →
     ∃ w', step CallFlush w = Next (w', [Returned FnFlush None])
           ∧ prod w' = prod w ∧ caller w' = CallerIdle)
  ∧ (mu_inflight (prod w) ≠ 0 →
     ∃ w' done,
       step CallFlush w = Next (w', [])
       ∧ caller w' = FlushWaiting done
       ∧ mu_flushDone (prod w') = Some done
       ∧ chans w' !! done = Some 0%nat
       ∧ (∀ w2, caller w2 = FlushWaiting done →
                chans w2 !! done = Some 0%nat →
                ∀ c, step (FlushSelect None c) w2 =
                     match c with
                     | FlushCloseCh =>
                         if closeCh (prod w2)
                         then Next (set_caller w2 CallerIdle,
                                    [Returned FnFlush
                                       (Some ErrKafkaFlushUnfinished)])
                         else Blocked
                     | _ => Blocked
                     end)).
Proof.
  intros Hidle. split.
  - intros H0. simpl. rewrite Hidle. unfold Flush_enter. rewrite H0. simpl.
    eexists. split; [reflexivity|]. simpl. by rewrite Hidle.
  - intros Hne. simpl. rewrite Hidle. unfold Flush_enter.
    destruct (Z.eqb_spec (mu_inflight (prod w)) 0) as [|_]; [done|]. simpl.
    eexists _, (length (chans w)). split; [reflexivity|]. simpl.
    split; [done|]. split; [done|]. split; [apply lookup_snoc_fresh|].
    intros w2 Hw2 Hch c. simpl. rewrite Hw2. unfold Flush_select.
    destruct c; simpl; rewrite ?Hch; simpl; [|done..].
    by destruct (closeCh (prod w2)).
Qed.

(** X2: the send on flushDone in the run loop always finds room: the loop is
    never stuck on it with [mu] held. *)
Lemma run_count_not_blocked tr w log ack :
  exec tr init = Next (w, log) →
  Z.of_nat (length tr) < 2 ^ 63 →
  runner w = RunAcked ack →
  ∃ w', step RunCount w = Next (w', [Decremented ack]).
Proof.
  intros Hexec Hn Hr. pose proof (flow_exec _ _ _ Hexec Hn) as Hflow.
  simpl. rewrite Hr. unfold run_count. simpl.
  destruct (GoInt.wrap_int64 (mu_inflight (prod w) - 1) =? 0);
    [|eexists; reflexivity].
  destruct (mu_flushDone (prod w)) as [d|] eqn:Hd; [|eexists; reflexivity].
  rewrite (flow_flushDone _ _ _ Hflow d Hd). eexists; reflexivity.
Qed.

(** *** After the shutdown *)

Lemma closeCh_step w e w' o :
  step e w = Next (w', o) → closeCh (prod w) = true → closeCh (prod w') = true.
Proof.
  intros Hstep Hc. destruct e; step_cases Hstep; simpl; done.
Qed.

Lemma closeCh_exec tr w w' log :
  exec tr w = Next (w', log) → closeCh (prod w) = true →
  closeCh (prod w') = true.
Proof.
  revert w w' log. induction tr as [|e tr IH]; intros w w' log; simpl.
  - by intros [= <- <-].
  - destruct (step e w) as [[w1 o1]| |] eqn:He; simpl; [|done..].
    destruct (exec tr w1) as [[w2 o2]| |] eqn:Htr; simpl; [|done..].
    intros [= <- <-] Hc. eapply IH; [done|]. by eapply closeCh_step.
Qed.

Lemma exec_chain tr1 tr2 w1 log1 w2 log2 :
  exec tr1 init = Next (w1, log1) → exec tr2 w1 = Next (w2, log2) →
  exec (tr1 ++ tr2) init = Next (w2, log1 ++ log2).
Proof. intros H1 H2. rewrite exec_app, H1. simpl. by rewrite H2. Qed.

Lemma set_sarama_same w : set_sarama w (sarama w) = w.
Proof. by destruct w. Qed.

(** C7, as amended: once stop has closed closeCh, then at any later moment
    a call of AsyncSendMessage returns nil at once and changes nothing, and
    a call of SyncBroadcastMessage has two ways through its select, both
    without SendMessages and without a change: the closeCh case, always
    open, which returns nil, and the context's case, open when the context
    is done, which returns the context's error. *)
Theorem sends_after_stop tr1 w1 log1 tr2 w2 log2 :
  exec tr1 init = Next (w1, log1) →
  closeCh (prod w1) = true →
  exec tr2 w1 = Next (w2, log2) →
  (∀ topic partition message,
     caller w2 = CallerIdle →
     step (CallAsyncSendMessage topic partition message) w2
     = Next (w2, [Returned FnAsyncSendMessage None]))
  ∧ (∀ ctx topic partitionsNum message sendResult c,
       step (CallSyncBroadcastMessage ctx topic partitionsNum message
               sendResult c) w2
       = match c, ctx with
         | SyncCloseCh, _ =>
             Next (w2, [Returned FnSyncBroadcastMessage None])
         | SyncCtxDone, Some err =>
             Next (w2, [Returned FnSyncBroadcastMessage (Some err)])
         | _, _ => Blocked
         end).
Proof.
  intros H1 Hc1 H2.
  pose proof (closeCh_exec _ _ _ _ H2 Hc1) as Hc2.
  pose proof (shutdown_exec _ _ _ (exec_chain _ _ _ _ _ _ H1 H2)) as Hsd.
  assert (closing (prod w2) = kafkaProducerClosing) as Hflag.
  { destruct (decide (closing (prod w2) = kafkaProducerRunning)) as [Hz|Hnz].
    - destruct (sd_running _ _ Hsd Hz) as (_ & _ & Hopen & _). congruence.
    - by destruct (sd_closing _ _ Hsd Hnz) as (? & _). }
  split.
  - intros topic partition message Hidle. simpl. rewrite Hidle.
    unfold AsyncSendMessage_closing. rewrite Hflag. reflexivity.
  - intros ctx topic n message sendResult c. simpl.
    unfold SyncBroadcastMessage. rewrite Hc2.
    destruct c, ctx as [err|]; simpl; rewrite ?set_sarama_same; reflexivity.
Qed.

(** C8: in any execution, whatever calls of Close and whatever exit of the
    run loop (the two callers of stop) it contains, and however they are
    interleaved: the swaps of the closing flag read Running once, the first
    time, and Closing ever after; closeCh is closed at most once, and
    exactly once as soon as some stop has been called and none is under
    way; the handles released are none or the four of them, once each; every
    Close returns nil; and after the first release the locked part of a
    Close releases nothing and leaves producer and clients as they are. *)
Theorem stop_Close_idempotent tr w log :
  exec tr init = Next (w, log) →
  (swaps log ≠ [] →
   ∃ n, swaps log = kafkaProducerRunning :: replicate n kafkaProducerClosing)
  ∧ (signals log ≤ 1)%nat
  ∧ (swaps log ≠ [] → quiescent w → signals log = 1%nat)
  ∧ (releases log = [] ∨ releases log = release_order)
  ∧ (∀ ret, ret ∈ returns FnClose log → ret = None)
  ∧ (releases log ≠ [] →
     ∀ rets, Close_locked rets (prod w) (sarama w)
             = Next (prod w, sarama w, None)).
Proof.
  intros Hexec. pose proof (shutdown_exec _ _ _ Hexec) as Hsd.
  destruct Hsd as [Hrun Hcl Hsig Hrel Hrels Hrl Hret].
  unfold quiescent.
  destruct (decide (closing (prod w) = kafkaProducerRunning)) as [Hz|Hnz].
  - destruct (Hrun Hz) as (Hsw & Hsg & Hch & Hcw & Hpr).
    rewrite Hsw, Hsig, Hch, Hrels, Hpr.
    split_and!; try done; try lia; by left.
  - destruct (Hcl Hnz) as (Hc1 & [m Hsw] & Hsg).
    rewrite Hsig, Hrels. split_and!.
    + eauto.
    + destruct (closeCh (prod w)); lia.
    + intros _ Hq. destruct (closeCh (prod w)); lia.
    + destruct (producersReleased (prod w)); eauto.
    + done.
    + destruct (producersReleased (prod w)) eqn:Hp; [|done].
      intros _ rets. unfold Close_locked. by rewrite Hp.
Qed.

(** C9: as long as no Close has released the handles, the locked part of
    any Close calls Close() on the metadata client, the asynchronous
    producer, the synchronous producer and the admin client, in this order,
    whatever each of the calls returns, and returns nil. *)
Theorem Close_release_order tr w log rets :
  exec tr init = Next (w, log) →
  releases log = [] →
  (∃ k' s',
     Close_locked rets (prod w) (sarama w) = Next (k', s', None)
     ∧ producersReleased k' = true
     ∧ closed s' = [(Client, rets Client);
                    (AsyncProducer, rets AsyncProducer);
                    (SyncProducer, rets SyncProducer);
                    (Admin, rets Admin)])
  ∧ (∀ w' o, step (CloseLocked rets) w = Next (w', o) →
             o = [Released Client (rets Client);
                  Released AsyncProducer (rets AsyncProducer);
                  Released SyncProducer (rets SyncProducer);
                  Released Admin (rets Admin);
                  Returned FnClose None]).
Proof.
  intros Hexec Hnone. pose proof (shutdown_exec _ _ _ Hexec) as Hsd.
  destruct Hsd as [_ _ _ Hrel Hrels _ _].
  destruct (producersReleased (prod w)) eqn:Hp;
    [rewrite Hrels in Hnone; discriminate|].
  apply fmap_nil_inv in Hrel.
  assert (Close_locked rets (prod w) (sarama w)
          = Next (set_producersReleased (prod w) true,
                  {| accepted := accepted (sarama w);
                     broadcasts := broadcasts (sarama w);
                     closed := [(Client, rets Client);
                                (AsyncProducer, rets AsyncProducer);
                                (SyncProducer, rets SyncProducer);
                                (Admin, rets Admin)] |}, None)) as Hlocked.
  { unfold Close_locked, release, is_closed. rewrite Hp, Hrel. reflexivity. }
  split.
  - eexists _, _. split; [exact Hlocked|]. done.
  - intros w' o. simpl. destruct (closers_waiting w); [done|].
    destruct (rlock_held w); [done|]. rewrite Hlocked, Hp. simpl.
    by intros [= <- <-].
Qed.

(** *** The waiting Flush and its wake-up *)

Lemma waiter_init : waiter init.
Proof. intros d Hd. discriminate. Qed.

Lemma waiter_step n w log e w' o :
  Z.of_nat (S n) < 2 ^ 63 →
  flow n w log → waiter w → step e w = Next (w', o) → waiter w'.
Proof.
  intros Hn Hflow Hwait Hstep.
  pose proof (flow_lengths _ _ _ Hflow) as Hlen.
  pose proof (flow_inflight _ _ _ Hflow) as Hi.
  pose proof (flow_flushDone _ _ _ Hflow) as Hf.
  clear Hflow. unfold waiter in *.
  destruct e; step_cases Hstep; unfold caller_hand, runner_hand in *;
    simpl in *; use_pcs_in_hyps; eqb_to_prop.
  all: intros d Hd; simplify_eq.
  all: try congruence.
  all: try (apply Hwait; congruence).
  all: try (left; split_and!; [done|done|apply lookup_snoc_fresh]).
  all: destruct (Hwait d) as [(Hfd & Hne & Hch)|(Hfd & Hz & Hch)];
       [congruence| |]; simplify_eq; rewrite ?Hfd in *; simplify_eq.
  all: try (rewrite wrap_int64_small in * by lia).
  all: try lia.
  all: try (left; split_and!; [done|lia|done]).
  all: try (right; split_and!; [done|lia|];
            apply list_lookup_insert_eq; by eapply lookup_lt_Some).
  all: simpl in Hlen; lia.
Qed.

Lemma flow_waiter_exec tr w log :
  exec tr init = Next (w, log) →
  Z.of_nat (length tr) < 2 ^ 63 →
  flow (length tr) w log ∧ waiter w.
Proof.
  intros Hexec.
  apply (exec_invariant
           (λ n w log, Z.of_nat n < 2 ^ 63 → flow n w log ∧ waiter w));
    [intros _; split; [apply flow_init|apply waiter_init]| |assumption].
  intros n w0 log0 e w' o HP Hstep Hn.
  destruct HP as [Hflow Hwait]; [lia|]. split.
  - eapply flow_step; eassumption.
  - eapply waiter_step; eassumption.
Qed.

(** X3: a Flush at its select can take the case of its own channel, and return
    nil, exactly when nothing is in flight: with messages in flight that
    case is not ready, and with none the notification has been sent and is
    still in the channel's buffer. *)
Theorem Flush_done_ready_iff_drained tr w log done ctx :
  exec tr init = Next (w, log) →
  Z.of_nat (length tr) < 2 ^ 63 →
  caller w = FlushWaiting done →
  (mu_inflight (prod w) = 0 →
   ∃ w', step (FlushSelect ctx FlushDone) w = Next (w', [Returned FnFlush None]))
  ∧ (mu_inflight (prod w) ≠ 0 →
     step (FlushSelect ctx FlushDone) w = Blocked).
Proof.
  intros Hexec Hn Hc.
  destruct (flow_waiter_exec _ _ _ Hexec Hn) as [_ Hwait].
  simpl. rewrite Hc. unfold Flush_select.
  destruct (Hwait done Hc) as [(_ & Hne & ->)|(_ & Hz & ->)]; split;
    intros H0; try done; simpl.
  eexists; reflexivity.
Qed.

(** *** What the inflight counter counts *)

(** X4: the inflight counter is the number of messages the asynchronous
    producer holds unacknowledged, plus the acknowledgement the run loop has
    in hand, plus the message the sender has in hand at its select, plus the
    messages whose select was left without the send: these are never counted
    off. *)
Theorem inflight_accounting tr w log :
  exec tr init = Next (w, log) →
  Z.of_nat (length tr) < 2 ^ 63 →
  mu_inflight (prod w)
  = Z.of_nat (length (accepted (sarama w)) + length (runner_hand w)
              + length (caller_hand w) + length (abandoned log)).
Proof.
  intros Hexec Hn. pose proof (flow_exec _ _ _ Hexec Hn) as Hflow.
  pose proof (flow_lengths _ _ _ Hflow) as Hlen.
  rewrite (flow_inflight _ _ _ Hflow). lia.
Qed.

(** X5: once an AsyncSendMessage has left its select on the context or on
    closeCh, after counting its message, something stays in flight for
    good: no Flush returns nil any more. *)
Theorem abandoned_send_blocks_Flush tr w log :
  exec tr init = Next (w, log) →
  Z.of_nat (length tr) < 2 ^ 63 →
  abandoned log ≠ [] →
  0 < mu_inflight (prod w)
  ∧ last log ≠ Some (Returned FnFlush None).
Proof.
  intros Hexec Hn Hab. pose proof (flow_exec _ _ _ Hexec Hn) as Hflow.
  pose proof (flow_lengths _ _ _ Hflow) as Hlen.
  assert (0 < mu_inflight (prod w)) as Hpos.
  { rewrite (flow_inflight _ _ _ Hflow).
    destruct (abandoned log); [done|]. simpl in Hlen. lia. }
  split; [done|]. intros Hlast.
  pose proof (flow_flushed _ _ _ Hflow Hlast). lia.
Qed.

(** *** The shutdown is final and ordered *)

Lemma final_step w e w' o :
  step e w = Next (w', o) →
  (closing (prod w) = kafkaProducerClosing →
   closing (prod w') = kafkaProducerClosing)
  ∧ (producersReleased (prod w) = true → producersReleased (prod w') = true).
Proof.
  intros Hstep. destruct e; step_cases Hstep; simpl; done.
Qed.

(** X6: from any state on, whatever runs: the closing flag, once Closing, stays
    Closing; closeCh, once closed, stays closed; the handles, once released,
    stay released. *)
Theorem shutdown_is_final tr w w' log :
  exec tr w = Next (w', log) →
  (closing (prod w) = kafkaProducerClosing →
   closing (prod w') = kafkaProducerClosing)
  ∧ (closeCh (prod w) = true → closeCh (prod w') = true)
  ∧ (producersReleased (prod w) = true → producersReleased (prod w') = true).
Proof.
  revert w w' log. induction tr as [|e tr IH]; intros w w' log; simpl.
  - by intros [= <- <-].
  - destruct (step e w) as [[w1 o1]| |] eqn:He; simpl; [|done..].
    destruct (exec tr w1) as [[w2 o2]| |] eqn:Htr; simpl; [|done..].
    intros [= <- <-]. destruct (IH _ _ _ Htr) as (Hf & Hc & Hr).
    destruct (final_step _ _ _ _ He) as (Hf1 & Hr1).
    pose proof (closeCh_step _ _ _ _ He) as Hc1. auto.
Qed.

(** X7: as long as the closing flag reads Running, and as long as a sender is
    inside AsyncSendMessage (it holds the read lock of clientLock), no
    handle has been closed; and closeCh is open as long as the flag reads
    Running. *)
Theorem handles_open_while_in_use tr w log :
  exec tr init = Next (w, log) →
  (closing (prod w) = kafkaProducerRunning →
   closeCh (prod w) = false ∧ closed (sarama w) = [])
  ∧ (rlock_held w = true → closed (sarama w) = []).
Proof.
  intros Hexec. pose proof (shutdown_exec _ _ _ Hexec) as Hsd.
  destruct Hsd as [Hrun _ _ Hrel _ Hrl _]. split.
  - intros Hz. destruct (Hrun Hz) as (_ & _ & Hch & _ & Hpr).
    rewrite Hpr in Hrel. by apply fmap_nil_inv in Hrel.
  - intros Hheld. rewrite (Hrl Hheld) in Hrel. by apply fmap_nil_inv in Hrel.
Qed.

Lemma run_stopped_closing tr w log :
  exec tr init = Next (w, log) →
  run_stopped w = true → closing (prod w) = kafkaProducerClosing.
Proof.
  revert tr w log.
  apply (exec_invariant_trace
           (λ _ w _, run_stopped w = true →
                     closing (prod w) = kafkaProducerClosing)); [done|].
  intros tr w log e w' o IH Hstep. unfold run_stopped in *.
  destruct e; step_cases Hstep; simpl in *; use_pcs_in_hyps; use_pcs;
    try done; auto.
Qed.

(** X8: however the run loop ends (context, closeCh, an error from Errors(),
    the failpoint), once run has returned the closing flag is Closing, a
    call of AsyncSendMessage returns nil without sending, and closeCh is
    closed unless another goroutine is still inside its stop. *)
Theorem run_exit_closes_producer tr w log ret :
  exec tr init = Next (w, log) →
  runner w = RunReturned ret →
  closing (prod w) = kafkaProducerClosing
  ∧ (quiescent w → closeCh (prod w) = true)
  ∧ (∀ topic partition message,
       caller w = CallerIdle →
       step (CallAsyncSendMessage topic partition message) w
       = Next (w, [Returned FnAsyncSendMessage None])).
Proof.
  intros Hexec Hret.
  assert (closing (prod w) = kafkaProducerClosing) as Hflag.
  { eapply run_stopped_closing; [done|]. unfold run_stopped. by rewrite Hret. }
  split; [done|]. split.
  - intros Hq. pose proof (shutdown_exec _ _ _ Hexec) as Hsd.
    destruct (sd_closing _ _ Hsd) as (_ & _ & Hsum).
    { rewrite Hflag. done. }
    unfold quiescent in Hq. rewrite Hq in Hsum.
    by destruct (closeCh (prod w)).
  - intros topic partition message Hidle. simpl. rewrite Hidle.
    unfold AsyncSendMessage_closing. by rewrite Hflag.
Qed.

(** *** Close gets through *)


(** *** Flush gets through *)

Lemma RunCount_runs tr w log ack :
  exec tr init = Next (w, log) →
  Z.of_nat (length tr) < 2 ^ 63 →
  runner w = RunAcked ack →
  ∃ w', step RunCount w = Next (w', [Decremented ack])
        ∧ caller w' = caller w ∧ sarama w' = sarama w
        ∧ runner w' = RunSelecting.
Proof.
  intros Hexec Hn Hr. pose proof (flow_exec _ _ _ Hexec Hn) as Hflow.
  simpl. rewrite Hr. unfold run_count. simpl.
  destruct (GoInt.wrap_int64 (mu_inflight (prod w) - 1) =? 0);
    [|eexists; split_and!; reflexivity].
  destruct (mu_flushDone (prod w)) as [d|] eqn:Hd;
    [|eexists; split_and!; reflexivity].
  rewrite (flow_flushDone _ _ _ Hflow d Hd). eexists; split_and!; reflexivity.
Qed.

Lemma exec_step_chain tr w log e w' o :
  exec tr init = Next (w, log) → step e w = Next (w', o) →
  exec (tr ++ [e]) init = Next (w', log ++ o).
Proof.
  intros Htr He. eapply exec_chain; [exact Htr|].
  simpl. rewrite He. simpl. by rewrite (right_id_L [] (++)).
Qed.

Lemma last_app_cons {A} (l1 l2 : list A) : l2 ≠ [] → last (l1 ++ l2) = last l2.
Proof.
  intros Hne. rewrite last_app. destruct (last l2) eqn:Hl; [done|].
  by apply last_None in Hl.
Qed.

(** X10: a Flush is waiting, the run loop is at its select, and no send was
    ever abandoned: when the asynchronous producer acknowledges the
    messages it holds and the loop counts them off, the Flush finds its
    channel signalled and returns nil. *)
Theorem Flush_gets_through tr w log done ctx :
  exec tr init = Next (w, log) →
  Z.of_nat (length tr + 2 * length (accepted (sarama w))) < 2 ^ 63 →
  caller w = FlushWaiting done →
  runner w = RunSelecting →
  abandoned log = [] →
  ∃ w' log',
    exec (drain (length (accepted (sarama w))) ++ [FlushSelect ctx FlushDone]) w
    = Next (w', log')
    ∧ last log' = Some (Returned FnFlush None)
    ∧ accepted (sarama w') = []
    ∧ mu_inflight (prod w') = 0.
Proof.
  remember (length (accepted (sarama w))) as n eqn:Hlen.
  revert tr w log Hlen.
  induction n as [|n IH]; intros tr w log Hlen Hexec Hn Hc Hr Hab.
  - simpl. rewrite Hc.
    assert (Z.of_nat (length tr) < 2 ^ 63) as Hn' by lia.
    destruct (flow_waiter_exec _ _ _ Hexec Hn') as [Hflow Hwait].
    pose proof (flow_lengths _ _ _ Hflow) as Hl.
    pose proof (flow_inflight _ _ _ Hflow) as Hi.
    symmetry in Hlen. apply nil_length_inv in Hlen.
    unfold caller_hand, runner_hand in Hl.
    rewrite Hc, Hr, Hab, Hlen in Hl. simpl in Hl.
    destruct (Hwait done Hc) as [(_ & Hne & _)|(_ & Hz & Hch)]; [lia|].
    unfold Flush_select. rewrite Hch. simpl.
    eexists _, _. split_and!; [reflexivity|done|done|done].
  - destruct (accepted (sarama w)) as [|m rest] eqn:Hacc; [done|].
    injection Hlen as Hlen.
    assert (∃ w1, step (RunSelect None (RunSuccess (Some 0%nat))) w
                  = Next (w1, [Acked m])
                  ∧ caller w1 = caller w ∧ runner w1 = RunAcked m
                  ∧ accepted (sarama w1) = rest) as (w1 & H1 & Hc1 & Hr1 & Ha1).
    { simpl. rewrite Hr. unfold run_select. rewrite Hacc. simpl.
      eexists. split_and!; reflexivity. }
    pose proof (exec_step_chain _ _ _ _ _ _ Hexec H1) as Hexec1.
    destruct (RunCount_runs _ _ _ m Hexec1) as (w2 & H2 & Hc2 & Hs2 & Hr2);
      [rewrite length_app; simpl in *; lia|done|].
    pose proof (exec_step_chain _ _ _ _ _ _ Hexec1 H2) as Hexec2.
    destruct (IH (((tr ++ [RunSelect None (RunSuccess (Some 0%nat))])
                   ++ [RunCount])) w2 ((log ++ [Acked m]) ++ [Decremented m]))
      as (w' & log' & Hrest & Hlast & Hnil & Hz).
    + by rewrite Hs2, Ha1.
    + exact Hexec2.
    + rewrite !length_app. simpl in *. lia.
    + by rewrite Hc2, Hc1.
    + done.
    + unfold abandoned in *. rewrite !omap_app, Hab. done.
    + exists w', ([Acked m] ++ [Decremented m] ++ log').
      assert (log' ≠ []) as Hne by (intros ->; done).
      split_and!; [|by rewrite !last_app_cons by (by destruct log')|done|done].
      change (drain (S n) ++ [FlushSelect ctx FlushDone])
        with (RunSelect None (RunSuccess (Some 0%nat))
              :: RunCount :: (drain n ++ [FlushSelect ctx FlushDone])).
      cbn [exec]. rewrite H1. cbn [and_then]. rewrite H2. cbn [and_then].
      rewrite Hrest. reflexivity.
Qed.

End Producer_facts.

(** *** The theorems on sample executions *)

Lemma inflight_nonnegative_witness :
  Producer.exec Samples.send_and_flush Producer.init
  = Producer.Next (Samples.after Samples.send_and_flush,
                   Samples.seen Samples.send_and_flush)
  ∧ last (Samples.seen Samples.send_and_flush)
    = Some (Producer.Returned Producer.FnFlush None)
  ∧ 0 ≤ Producer.mu_inflight (Producer.prod (Samples.after Samples.send_and_flush))
  ∧ Producer.mu_inflight (Producer.prod (Samples.after Samples.send_and_flush)) = 0.
Proof.
  assert (Producer.exec Samples.send_and_flush Producer.init
          = Producer.Next (Samples.after Samples.send_and_flush,
                           Samples.seen Samples.send_and_flush)) as Hexec
    by (vm_compute; reflexivity).
  assert (Z.of_nat (length Samples.send_and_flush) < 2 ^ 63) as Hn
    by (vm_compute; reflexivity).
  assert (last (Samples.seen Samples.send_and_flush)
          = Some (Producer.Returned Producer.FnFlush None)) as Hlast
    by (vm_compute; reflexivity).
  destruct (inflight_nonnegative _ _ _ Hexec Hn) as [Hge H0].
  split; [exact Hexec|]. split; [exact Hlast|]. split; [exact Hge|].
  exact (H0 Hlast).
Defined.

Lemma Flush_nil_after_all_acked_witness :
  Producer.counted (Samples.seen Samples.send_and_flush)
  ≡ₚ Producer.acked (Samples.seen Samples.send_and_flush)
  ∧ Producer.counted (Samples.seen Samples.send_and_flush) = [Samples.hello_msg].
Proof.
  assert (Producer.exec Samples.send_and_flush Producer.init
          = Producer.Next (Samples.after Samples.send_and_flush,
                           Samples.seen Samples.send_and_flush)) as Hexec
    by (vm_compute; reflexivity).
  assert (Z.of_nat (length Samples.send_and_flush) < 2 ^ 63) as Hn
    by (vm_compute; reflexivity).
  assert (last (Samples.seen Samples.send_and_flush)
          = Some (Producer.Returned Producer.FnFlush None)) as Hlast
    by (vm_compute; reflexivity).
  split; [|vm_compute; reflexivity].
  exact (proj1 (Flush_nil_after_all_acked _ _ _ Hexec Hn Hlast)).
Defined.

(** Against C1 as it is stated: after Close one message is given to
    AsyncSendMessage, which returns nil, and the Flush that follows returns
    nil, though the run loop has read no acknowledgement at all. *)
Lemma Flush_nil_without_ack :
  Producer.exec Samples.send_after_close Producer.init
  = Producer.Next (Samples.after Samples.send_after_close,
                   Samples.seen Samples.send_after_close)
  ∧ Producer.submitted Samples.send_after_close = [Samples.hello_msg]
  ∧ Producer.returns Producer.FnAsyncSendMessage
      (Samples.seen Samples.send_after_close) = [None]
  ∧ last (Samples.seen Samples.send_after_close)
    = Some (Producer.Returned Producer.FnFlush None)
  ∧ Producer.acked (Samples.seen Samples.send_after_close) = [].
Proof. vm_compute. repeat split. Qed.

Lemma Flush_immediate_or_waits_witness :
  Producer.caller (Samples.after Samples.send_only) = Producer.CallerIdle
  ∧ Producer.mu_inflight (Producer.prod (Samples.after Samples.send_only)) = 1
  ∧ ∃ w' done,
      Producer.step Producer.CallFlush (Samples.after Samples.send_only)
      = Producer.Next (w', [])
      ∧ Producer.caller w' = Producer.FlushWaiting done
      ∧ Producer.mu_flushDone (Producer.prod w') = Some done.
Proof.
  assert (Producer.caller (Samples.after Samples.send_only)
          = Producer.CallerIdle) as Hidle by (vm_compute; reflexivity).
  assert (Producer.mu_inflight (Producer.prod (Samples.after Samples.send_only))
          = 1) as H1 by (vm_compute; reflexivity).
  split; [exact Hidle|]. split; [exact H1|].
  destruct (proj2 (Flush_immediate_or_waits _ Hidle)) as (w' & done & H).
  { rewrite H1. lia. }
  exists w', done. destruct H as (Hs & Hc & Hf & _). auto.
Defined.

(** Against C7 as it is stated: Close has returned, and a call of
    SyncBroadcastMessage whose context is cancelled takes the context's case
    of the select and returns the context's error, not nil. *)
Lemma SyncBroadcastMessage_after_Close_error :
  Producer.exec Samples.closed_once Producer.init
  = Producer.Next (Samples.after Samples.closed_once,
                   Samples.seen Samples.closed_once)
  ∧ Producer.returns Producer.FnClose (Samples.seen Samples.closed_once) = [None]
  ∧ Producer.step
      (Producer.CallSyncBroadcastMessage (Some ContextCanceled) "t" 3
         Samples.hello None Producer.SyncCtxDone)
      (Samples.after Samples.closed_once)
    = Producer.Next
        (Samples.after Samples.closed_once,
         [Producer.Returned Producer.FnSyncBroadcastMessage
            (Some ContextCanceled)]).
Proof. vm_compute. repeat split. Qed.

Lemma sends_after_stop_witness :
  Producer.step (Producer.CallAsyncSendMessage "t" 0 Samples.hello)
    (Samples.after Samples.closed_once)
  = Producer.Next (Samples.after Samples.closed_once,
                   [Producer.Returned Producer.FnAsyncSendMessage None])
  ∧ Producer.step
      (Producer.CallSyncBroadcastMessage None "t" 3 Samples.hello None
         Producer.SyncCloseCh)
      (Samples.after Samples.closed_once)
    = Producer.Next (Samples.after Samples.closed_once,
                     [Producer.Returned Producer.FnSyncBroadcastMessage None]).
Proof.
  assert (Producer.exec Samples.close_stopped Producer.init
          = Producer.Next (Samples.after Samples.close_stopped,
                           Samples.seen Samples.close_stopped)) as H1
    by (vm_compute; reflexivity).
  assert (Producer.closeCh (Producer.prod (Samples.after Samples.close_stopped))
          = true) as Hc by (vm_compute; reflexivity).
  assert (Producer.exec [Producer.CloseLocked Samples.all_fine]
            (Samples.after Samples.close_stopped)
          = Producer.Next (Samples.after Samples.closed_once,
                           [Producer.Released Producer.Client None;
                            Producer.Released Producer.AsyncProducer None;
                            Producer.Released Producer.SyncProducer None;
                            Producer.Released Producer.Admin None;
                            Producer.Returned Producer.FnClose None])) as H2
    by (vm_compute; reflexivity).
  destruct (sends_after_stop _ _ _ _ _ _ H1 Hc H2) as (Ha & Hs).
  split.
  - apply Ha. vm_compute; reflexivity.
  - exact (Hs None "t"%string 3 Samples.hello None Producer.SyncCloseCh).
Defined.

(** The window that C7 as amended leaves aside: the run loop has swapped
    the flag and not yet closed closeCh when a Close comes, finds the flag
    set, and releases the handles; a SyncBroadcastMessage after that Close
    has returned still finds closeCh open and calls SendMessages. *)
Lemma SyncBroadcastMessage_after_Close_race :
  Producer.returns Producer.FnClose (Samples.seen Samples.close_overtakes_run)
  = [None]
  ∧ Producer.releases (Samples.seen Samples.close_overtakes_run)
    = Producer.release_order
  ∧ ∃ w', Producer.step
            (Producer.CallSyncBroadcastMessage None "t" 3 Samples.hello None
               Producer.SyncDefault)
            (Samples.after Samples.close_overtakes_run)
          = Producer.Next
              (w', [Producer.Broadcast
                      {| Producer.smTopic := "t"; Producer.smPartitionsNum := 3;
                         Producer.smKey := Producer.msgKey Samples.hello;
                         Producer.smValue := Producer.msgValue Samples.hello |};
                    Producer.Returned Producer.FnSyncBroadcastMessage None]).
Proof. vm_compute. split; [done|]. split; [done|]. eexists. reflexivity. Qed.

Lemma stop_Close_idempotent_witness :
  Producer.swaps (Samples.seen Samples.closed_twice)
  = [Producer.kafkaProducerRunning; Producer.kafkaProducerClosing;
     Producer.kafkaProducerClosing]
  ∧ Producer.signals (Samples.seen Samples.closed_twice) = 1%nat
  ∧ Producer.releases (Samples.seen Samples.closed_twice)
    = Producer.release_order
  ∧ Producer.returns Producer.FnClose (Samples.seen Samples.closed_twice)
    = [None; None].
Proof.
  assert (Producer.exec Samples.closed_twice Producer.init
          = Producer.Next (Samples.after Samples.closed_twice,
                           Samples.seen Samples.closed_twice)) as Hexec
    by (vm_compute; reflexivity).
  destruct (stop_Close_idempotent _ _ _ Hexec)
    as (_ & _ & Hsig & _ & _ & _).
  split; [vm_compute; reflexivity|]. split.
  - apply Hsig; [vm_compute; discriminate|vm_compute; reflexivity].
  - split; vm_compute; reflexivity.
Defined.

Lemma Close_release_order_witness :
  ∃ k' s',
    Producer.Close_locked Samples.client_fails
      (Producer.prod (Samples.after Samples.close_stopped))
      (Producer.sarama (Samples.after Samples.close_stopped))
    = Producer.Next (k', s', None)
    ∧ Producer.producersReleased k' = true
    ∧ Producer.closed s'
      = [(Producer.Client, Some (ErrExternal 7));
         (Producer.AsyncProducer, None);
         (Producer.SyncProducer, None);
         (Producer.Admin, None)].
Proof.
  assert (Producer.exec Samples.close_stopped Producer.init
          = Producer.Next (Samples.after Samples.close_stopped,
                           Samples.seen Samples.close_stopped)) as Hexec
    by (vm_compute; reflexivity).
  assert (Producer.releases (Samples.seen Samples.close_stopped) = []) as Hnone
    by (vm_compute; reflexivity).
  exact (proj1 (Close_release_order _ _ _ Samples.client_fails Hexec Hnone)).
Defined.


(** ** The relay configuration *)

Section Config_String.
Import relay.

Example Config_String_sample :
  relay.String (Some {| EnableGTID := true; AutoFixGTID := false;
                   MetaFile := "relay.meta"; RelayDir := "./relay";
                   ServerID := 101; Flavor := "mysql"; Charset := "utf8";
                   VerifyChecksum := false;
                   From := {| Host := "127.0.0.1"; User := "root";
                              Password := "s3cret"; Port := 3306 |} |})
  = ("{" ++ Json.quote ++ "enable-gtid" ++ Json.quote ++ ":true,"
      ++ Json.quote ++ "auto-fix-gtid" ++ Json.quote ++ ":false,"
      ++ Json.quote ++ "meta-file" ++ Json.quote ++ ":"
      ++ Json.quote ++ "relay.meta" ++ Json.quote ++ ","
      ++ Json.quote ++ "relay-dir" ++ Json.quote ++ ":"
      ++ Json.quote ++ "./relay" ++ Json.quote ++ ","
      ++ Json.quote ++ "server-id" ++ Json.quote ++ ":101,"
      ++ Json.quote ++ "flavor" ++ Json.quote ++ ":"
      ++ Json.quote ++ "mysql" ++ Json.quote ++ ","
      ++ Json.quote ++ "charset" ++ Json.quote ++ ":"
      ++ Json.quote ++ "utf8" ++ Json.quote ++ ","
      ++ Json.quote ++ "verify-checksum" ++ Json.quote ++ ":false,"
      ++ Json.quote ++ "data-source" ++ Json.quote ++ ":{"
      ++ Json.quote ++ "host" ++ Json.quote ++ ":"
      ++ Json.quote ++ "127.0.0.1" ++ Json.quote ++ ","
      ++ Json.quote ++ "user" ++ Json.quote ++ ":"
      ++ Json.quote ++ "root" ++ Json.quote ++ ","
      ++ Json.quote ++ "port" ++ Json.quote ++ ":3306}}")%string.
Proof. vm_compute. reflexivity. Qed.

Lemma Config_String_forgets_password (c : Config) (p : string) :
  relay.String (Some (with_password c p)) = relay.String (Some c).
Proof. reflexivity. Qed.

Lemma same_but_password_with (c1 c2 : Config) :
  same_but_password c1 c2 → c1 = with_password c2 (Password (From c1)).
Proof.
  destruct c1 as [a1 b1 c1 d1 e1 f1 g1 h1 [i1 j1 k1 l1]],
           c2 as [a2 b2 c2 d2 e2 f2 g2 h2 [i2 j2 k2 l2]].
  unfold same_but_password, with_password; simpl.
  intros (-> & -> & -> & -> & -> & -> & -> & -> & -> & -> & ->).
  reflexivity.
Qed.

(** C10: two relay configurations that are equal in every field except
    the data source's Password are rendered to the same string by
    Config.String(): the Password does not appear in the JSON and has no
    influence on it. *)
Theorem Config_String_password_noninterference (c1 c2 : Config) :
  same_but_password c1 c2 →
  relay.String (Some c1) = relay.String (Some c2).
Proof.
  intros H. rewrite (same_but_password_with c1 c2 H).
  apply Config_String_forgets_password.
Qed.

End Config_String.

Lemma Config_String_password_noninterference_witness :
  let c (p : string) : relay.Config :=
    {| relay.EnableGTID := true; relay.AutoFixGTID := false;
       relay.MetaFile := "relay.meta"; relay.RelayDir := "./relay";
       relay.ServerID := 101; relay.Flavor := "mysql";
       relay.Charset := "utf8"; relay.VerifyChecksum := false;
       relay.From := {| relay.Host := "127.0.0.1"; relay.User := "root";
                        relay.Password := p; relay.Port := 3306 |} |} in
  relay.String (Some (c "s3cret"%string)) = relay.String (Some (c "hunter2"%string)).
Proof.
  intros c.
  apply (Config_String_password_noninterference (c "s3cret"%string) (c "hunter2"%string)).
  repeat split.
Defined.

(** * Further properties *)

(** ** Option reconciliation *)

Section AdjustOptions_more.
Import kafka Adjust AdjustWith.

Variable admin : ClusterAdminClient.

Lemma AdjustOptions_with_SetPartitionNum options topic :
  AdjustOptions_with SetPartitionNum admin options topic
  = AdjustOptions admin options topic.
Proof. reflexivity. Qed.

(** X11: validateMinInsyncReplicas returns nil in two cases and no other: the
    lookup of min.insync.replicas (topic entry, else broker) fails with
    broker-config-not-found, or it gives a number that is not above the
    replication factor.  Any other lookup error, and a value that is not a
    number, is an error. *)
Theorem validateMinInsyncReplicas_nil_iff topics topic rf :
  validateMinInsyncReplicas admin topics topic rf = None
  ↔ (∃ e, applicable_min_insync_str admin topics topic = Err e
          ∧ is_broker_config_not_found e = true)
    ∨ (∃ s v, applicable_min_insync_str admin topics topic = Ok s
              ∧ Strconv.Atoi s = Ok v ∧ v ≤ rf).
Proof.
  unfold validateMinInsyncReplicas. rewrite getter_resolves.
  destruct (applicable_min_insync_str admin topics topic) as [s|e] eqn:Hs.
  - destruct (Strconv.Atoi s) as [v|e] eqn:Hv.
    + destruct (Z.ltb_spec rf v); split.
      * done.
      * intros [(e & He & _)|(s' & v' & Hs' & Hv' & Hle)]; [done|].
        simplify_eq. assert (v = v') by congruence. lia.
      * intros _. right. exists s, v. split_and!; [done|done|lia].
      * done.
    + split; [done|].
      intros [(e' & He & _)|(s' & v' & Hs' & Hv' & _)]; [done|].
      simplify_eq. congruence.
  - destruct (is_broker_config_not_found e) eqn:Hnf; split.
    + intros _. left. by exists e.
    + done.
    + done.
    + intros [(e' & He & Hnf')|(s' & v' & Hs' & _)]; [|done].
      simplify_eq. congruence.
Qed.

(** X12: when the replication factor is below min.insync.replicas, the error
    says [topic] whenever the topic exists in the metadata, also when the
    topic has no entry of its own and the value is the broker's, and it
    says [broker] only when the topic does not exist. *)
Theorem invalid_config_names_topic_iff_exists topics topic rf s v :
  applicable_min_insync_str admin topics topic = Ok s →
  Strconv.Atoi s = Ok v →
  rf < v →
  validateMinInsyncReplicas admin topics topic rf
  = Some (ErrKafkaInvalidConfig
            (match topics !! topic with
             | Some _ => "topic"
             | None => "broker"
             end)).
Proof.
  intros Hs Hv Hlt. unfold validateMinInsyncReplicas.
  rewrite getter_resolves, Hs, Hv.
  destruct (Z.ltb_spec rf v); [|lia].
  by destruct (topics !! topic).
Qed.

(** X13: whatever the outcome, AdjustOptions does not raise MaxMessageBytes,
    provided SetPartitionNum does not. *)
Theorem AdjustOptions_never_raises_MaxMessageBytes
    (setPartitionNum : Options → Z → Options * option error) options topic :
  (∀ o n, MaxMessageBytes (setPartitionNum o n).1 ≤ MaxMessageBytes o) →
  MaxMessageBytes (AdjustOptions_with setPartitionNum admin options topic).1
  ≤ MaxMessageBytes options.
Proof.
  intros Hspn. unfold AdjustOptions_with.
  repeat case_match; simpl; try lia;
    repeat match goal with
           | H : setPartitionNum ?o ?n = _ |- _ =>
               pose proof (Hspn o n) as Hle; rewrite H in Hle; clear H
           | H : (_ <? _) = true |- _ => apply Z.ltb_lt in H
           | H : (_ <? _) = false |- _ => apply Z.ltb_ge in H
           end;
    simpl in *; lia.
Qed.


(** X15: the tolerance of broker-config-not-found is for min.insync.replicas
    only: when the maximal message size has to come from the broker (the
    topic does not exist, or has no max.message.bytes of its own) and the
    broker's message.max.bytes cannot be read, whatever the error,
    AdjustOptions fails with that error and leaves the options alone. *)
Theorem AdjustOptions_max_bytes_lookup_fails options topic topics e :
  GetAllTopicsMeta admin = Ok topics →
  validateMinInsyncReplicas admin topics topic (ReplicationFactor options)
    = None →
  (topics !! topic = None
   ∨ ∃ info, topics !! topic = Some info
             ∧ ConfigEntries info !! TopicMaxMessageBytesConfigName = None) →
  GetBrokerConfig admin BrokerMessageMaxBytesConfigName = Err e →
  AdjustOptions admin options topic = (options, Some e).
Proof.
  intros Hmeta Hval Htopic Herr. unfold AdjustOptions.
  rewrite Hmeta, Hval.
  destruct Htopic as [->|(info & -> & Hnone)].
  - by rewrite Herr.
  - unfold getTopicConfig. by rewrite Hnone, Herr.
Qed.

(** X16: a value of min.insync.replicas or of the maximal message size that is
    not a number makes AdjustOptions fail with the error of strconv.Atoi;
    the options are left alone. *)
Theorem AdjustOptions_malformed_number options topic topics s e :
  GetAllTopicsMeta admin = Ok topics →
  Strconv.Atoi s = Err e →
  (applicable_min_insync_str admin topics topic = Ok s
   ∨ (validateMinInsyncReplicas admin topics topic (ReplicationFactor options)
        = None
      ∧ match topics !! topic with
        | Some info =>
            getTopicConfig admin info TopicMaxMessageBytesConfigName
              BrokerMessageMaxBytesConfigName
        | None => GetBrokerConfig admin BrokerMessageMaxBytesConfigName
        end = Ok s)) →
  AdjustOptions admin options topic = (options, Some e).
Proof.
  intros Hmeta Hbad [Hs|[Hval Hs]]; unfold AdjustOptions; rewrite Hmeta.
  - unfold validateMinInsyncReplicas. rewrite getter_resolves, Hs, Hbad. done.
  - rewrite Hval. destruct (topics !! topic); by rewrite Hs, Hbad.
Qed.

(** X17: when the topic does not exist, AdjustOptions applied to its own result
    gives that result again: the lowered MaxMessageBytes and the default
    partition count are kept. *)
Theorem AdjustOptions_twice options topic topics :
  GetAllTopicsMeta admin = Ok topics →
  topics !! topic = None →
  AdjustOptions admin (AdjustOptions admin options topic).1 topic
  = AdjustOptions admin options topic.
Proof.
  intros Hmeta Hnone. unfold AdjustOptions. rewrite Hmeta, Hnone.
  destruct (validateMinInsyncReplicas admin topics topic
              (ReplicationFactor options)) as [e|] eqn:Hval; simpl.
  { by rewrite Hval. }
  destruct (GetBrokerConfig admin BrokerMessageMaxBytesConfigName)
    as [s|e] eqn:Hcfg; simpl; [|by rewrite Hval].
  destruct (Strconv.Atoi s) as [m|e] eqn:Hm; simpl; [|by rewrite Hval].
  destruct options as [mb pn rf ac]; simpl in *.
  unfold set_MaxMessageBytes, set_PartitionNum, defaultPartitionNum; simpl.
  destruct (Z.ltb_spec m mb); simpl;
    destruct (Z.eqb_spec pn 0); simpl; rewrite Hval; simpl;
    repeat match goal with
           | |- context [?a <? ?b] =>
               destruct (Z.ltb_spec a b); simpl in *; try lia
           | |- context [?a =? ?b] =>
               destruct (Z.eqb_spec a b); simpl in *; try lia
           end; simpl; reflexivity.
Qed.

End AdjustOptions_more.

(** ** The relay configuration: what the rendering shows *)

Section Config_String_more.
Import JsonRead.

Lemma app_cons x (a b : string) : (String x a +:+ b = String x (a +:+ b))%string.
Proof. reflexivity. Qed.

Lemma app_nil (b : string) : (EmptyString +:+ b = b)%string.
Proof. reflexivity. Qed.

Lemma string_app_assoc (a b c : string) :
  ((a +:+ b) +:+ c = a +:+ (b +:+ c))%string.
Proof.
  induction a as [|x a IH]; [done|]. rewrite !app_cons. by rewrite IH.
Qed.

Lemma escape_byte_read c rest :
  unescape_head (Json.escape_byte c +:+ rest) = Some (c, rest).
Proof. destruct c as [[] [] [] [] [] [] [] []]; reflexivity. Qed.

Lemma escape_read_inj s s' r r' :
  (Json.escape s +:+ Json.quote +:+ r = Json.escape s' +:+ Json.quote +:+ r')%string →
  s = s' ∧ r = r'.
Proof.
  revert s'. induction s as [|c s IH]; intros [|c' s'];
    cbn [Json.escape]; rewrite ?app_nil, ?string_app_assoc.
  - unfold Json.quote. rewrite !app_cons, !app_nil. intros [= ->]. done.
  - intros H. apply (f_equal unescape_head) in H.
    rewrite escape_byte_read in H. discriminate.
  - intros H. apply (f_equal unescape_head) in H.
    rewrite escape_byte_read in H. discriminate.
  - intros H. pose proof (f_equal unescape_head H) as Hh.
    rewrite !escape_byte_read in Hh. injection Hh as -> Hrest.
    destruct (IH _ Hrest) as [-> ->]. done.
Qed.

Lemma encode_string_read_inj s s' r r' :
  (Json.encode_string s +:+ r = Json.encode_string s' +:+ r')%string →
  s = s' ∧ r = r'.
Proof.
  unfold Json.encode_string. rewrite !string_app_assoc.
  unfold Json.quote at 1 3. rewrite !app_cons, !app_nil.
  intros H. injection H as H. by apply escape_read_inj.
Qed.

Lemma uint_numeric d : all_numeric (NilEmpty.string_of_uint d) = true.
Proof. induction d; simpl; done. Qed.

Lemma encode_int_numeric z : all_numeric (Json.encode_int z) = true.
Proof.
  unfold Json.encode_int, NilZero.string_of_int, NilZero.string_of_uint.
  destruct (Z.to_int z) as [d|d]; destruct d; simpl; try done;
    apply uint_numeric.
Qed.

Lemma numeric_split a a' c r c' r' :
  all_numeric a = true → all_numeric a' = true →
  is_numeric c = false → is_numeric c' = false →
  (a +:+ String c r = a' +:+ String c' r')%string →
  a = a' ∧ String c r = String c' r'.
Proof.
  revert a'. induction a as [|x a IH]; intros [|x' a'];
    rewrite ?app_cons, ?app_nil; cbn [all_numeric];
    intros Ha Ha' Hc Hc' H.
  - done.
  - injection H as -> _. apply andb_prop in Ha' as [Hx _]. congruence.
  - injection H as -> _. apply andb_prop in Ha as [Hx _]. congruence.
  - injection H as -> H. apply andb_prop in Ha as [_ Ha].
    apply andb_prop in Ha' as [_ Ha'].
    destruct (IH _ Ha Ha' Hc Hc' H) as [-> ?]. done.
Qed.

Lemma encode_int_inj z z' : Json.encode_int z = Json.encode_int z' → z = z'.
Proof.
  unfold Json.encode_int. intros H.
  apply DecimalZ.to_int_inj.
  assert (∀ z, NilZero.int_of_string (NilZero.string_of_int (Z.to_int z))
               = Some (Z.to_int z)) as Hread.
  { intros z0. apply NilZero.isi.
    - destruct z0; simpl; [done| |done].
      intros [= Hp]. by apply DecimalPos.Unsigned.to_uint_nonnil in Hp.
    - destruct z0; simpl; [done|done|].
      intros [= Hp]. by apply DecimalPos.Unsigned.to_uint_nonnil in Hp. }
  pose proof (Hread z) as H1. rewrite H, Hread in H1. congruence.
Qed.

Lemma encode_int_read_inj z z' c r c' r' :
  is_numeric c = false → is_numeric c' = false →
  (Json.encode_int z +:+ String c r = Json.encode_int z' +:+ String c' r')%string →
  z = z' ∧ String c r = String c' r'.
Proof.
  intros Hc Hc' H.
  destruct (numeric_split _ _ _ _ _ _ (encode_int_numeric z)
              (encode_int_numeric z') Hc Hc' H) as [Hz Hr].
  split; [by apply encode_int_inj|done].
Qed.

Ltac peel H :=
  repeat first
    [ progress (rewrite ?string_app_assoc, ?app_cons, ?app_nil in H)
    | match type of H with
      | String _ _ = String _ _ => injection H as H
      | (Json.encode_string _ +:+ _)%string = _ =>
          apply encode_string_read_inj in H as [? H]
      | (Json.escape _ +:+ Json.quote +:+ _)%string = _ =>
          apply escape_read_inj in H as [? H]
      | (Json.encode_int _ +:+ _)%string = _ =>
          apply encode_int_read_inj in H as [? H]; [|reflexivity|reflexivity]
      | ((if ?b then _ else _) +:+ _)%string
        = ((if ?b' then _ else _) +:+ _)%string =>
          destruct b, b'; try (rewrite ?app_cons in H; discriminate)
      end ].

(** X18: Config.String() shows every field but the password: two
    configurations (their strings of bytes below 0x80) with the same
    rendering agree on all the other fields of Config and of its data
    source. *)
Theorem Config_String_shows_other_fields (c1 c2 : relay.Config) :
  ascii_config c1 = true →
  ascii_config c2 = true →
  relay.String (Some c1) = relay.String (Some c2) →
  relay.same_but_password c1 c2.
Proof.
  intros _ _.
  destruct c1 as [a1 b1 c1 d1 e1 f1 g1 h1 [i1 j1 k1 l1]],
           c2 as [a2 b2 c2 d2 e2 f2 g2 h2 [i2 j2 k2 l2]].
  unfold relay.String, Json.Marshal, relay.Config_fields,
    relay.DBConfig_fields, relay.same_but_password.
  cbn -[Json.encode_string Json.encode_int String.append].
  intros H. peel H; split_and!; congruence.
Qed.

End Config_String_more.

(** ** The further properties on samples *)

Lemma run_count_not_blocked_witness :
  ∃ w', Producer.step Producer.RunCount (Samples.after MoreSamples.ack_in_hand)
        = Producer.Next (w', [Producer.Decremented Samples.hello_msg]).
Proof.
  assert (Producer.exec MoreSamples.ack_in_hand Producer.init
          = Producer.Next (Samples.after MoreSamples.ack_in_hand,
                           Samples.seen MoreSamples.ack_in_hand)) as Hexec
    by (vm_compute; reflexivity).
  assert (Z.of_nat (length MoreSamples.ack_in_hand) < 2 ^ 63) as Hn
    by (vm_compute; reflexivity).
  assert (Producer.runner (Samples.after MoreSamples.ack_in_hand)
          = Producer.RunAcked Samples.hello_msg) as Hr
    by (vm_compute; reflexivity).
  exact (run_count_not_blocked _ _ _ _ Hexec Hn Hr).
Defined.

Lemma Flush_done_ready_iff_drained_witness :
  Producer.step (Producer.FlushSelect None Producer.FlushDone)
    (Samples.after MoreSamples.flush_waiting) = Producer.Blocked
  ∧ ∃ w', Producer.step (Producer.FlushSelect None Producer.FlushDone)
            (Samples.after MoreSamples.flush_signalled)
          = Producer.Next (w', [Producer.Returned Producer.FnFlush None]).
Proof.
  assert (Producer.exec MoreSamples.flush_waiting Producer.init
          = Producer.Next (Samples.after MoreSamples.flush_waiting,
                           Samples.seen MoreSamples.flush_waiting)) as H1
    by (vm_compute; reflexivity).
  assert (Producer.exec MoreSamples.flush_signalled Producer.init
          = Producer.Next (Samples.after MoreSamples.flush_signalled,
                           Samples.seen MoreSamples.flush_signalled)) as H2
    by (vm_compute; reflexivity).
  assert (Z.of_nat (length MoreSamples.flush_waiting) < 2 ^ 63) as Hn1
    by (vm_compute; reflexivity).
  assert (Z.of_nat (length MoreSamples.flush_signalled) < 2 ^ 63) as Hn2
    by (vm_compute; reflexivity).
  split.
  - apply (proj2 (Flush_done_ready_iff_drained _ _ _ 0%nat None H1 Hn1
                    ltac:(vm_compute; reflexivity))).
    vm_compute. discriminate.
  - apply (proj1 (Flush_done_ready_iff_drained _ _ _ 0%nat None H2 Hn2
                    ltac:(vm_compute; reflexivity))).
    vm_compute. reflexivity.
Defined.

Lemma inflight_accounting_witness :
  Producer.mu_inflight (Producer.prod (Samples.after MoreSamples.send_abandoned))
  = Z.of_nat
      (length (Producer.accepted
                 (Producer.sarama (Samples.after MoreSamples.send_abandoned)))
       + length (Producer.runner_hand (Samples.after MoreSamples.send_abandoned))
       + length (Producer.caller_hand (Samples.after MoreSamples.send_abandoned))
       + length (Producer.abandoned (Samples.seen MoreSamples.send_abandoned))).
Proof.
  apply (inflight_accounting MoreSamples.send_abandoned);
    vm_compute; reflexivity.
Defined.

Lemma abandoned_send_blocks_Flush_witness :
  0 < Producer.mu_inflight
        (Producer.prod (Samples.after MoreSamples.send_abandoned))
  ∧ last (Samples.seen MoreSamples.send_abandoned)
    ≠ Some (Producer.Returned Producer.FnFlush None).
Proof.
  apply (abandoned_send_blocks_Flush MoreSamples.send_abandoned);
    [vm_compute; reflexivity|vm_compute; reflexivity|vm_compute; discriminate].
Defined.

Lemma shutdown_is_final_witness :
  Producer.closing (Producer.prod (Samples.after Samples.closed_twice))
  = Producer.kafkaProducerClosing
  ∧ Producer.closeCh (Producer.prod (Samples.after Samples.closed_twice)) = true
  ∧ Producer.producersReleased
      (Producer.prod (Samples.after Samples.closed_twice)) = true.
Proof.
  assert (Producer.exec
            [Producer.CallClose; Producer.CloseLocked Samples.all_fine;
             Producer.RunSelect None Producer.RunCloseCh; Producer.RunStop]
            (Samples.after [Producer.CallClose; Producer.CloseSignal;
                            Producer.CloseLocked Samples.client_fails])
          = Producer.Next
              (Samples.after Samples.closed_twice,
               [Producer.Swapped 1; Producer.Returned Producer.FnClose None;
                Producer.Swapped 1; Producer.Returned Producer.FnRun None]))
    as Hexec by (vm_compute; reflexivity).
  destruct (shutdown_is_final _ _ _ _ Hexec) as (Hf & Hc & Hr).
  split; [apply Hf; vm_compute; reflexivity|].
  split; [apply Hc; vm_compute; reflexivity|].
  apply Hr; vm_compute; reflexivity.
Defined.

Lemma handles_open_while_in_use_witness :
  Producer.rlock_held (Samples.after MoreSamples.sender_inside) = true
  ∧ Producer.closed (Producer.sarama (Samples.after MoreSamples.sender_inside))
    = [].
Proof.
  assert (Producer.exec MoreSamples.sender_inside Producer.init
          = Producer.Next (Samples.after MoreSamples.sender_inside,
                           Samples.seen MoreSamples.sender_inside)) as Hexec
    by (vm_compute; reflexivity).
  assert (Producer.rlock_held (Samples.after MoreSamples.sender_inside) = true)
    as Hheld by (vm_compute; reflexivity).
  split; [exact Hheld|].
  exact (proj2 (handles_open_while_in_use _ _ _ Hexec) Hheld).
Defined.

Lemma run_exit_closes_producer_witness :
  Producer.closing (Producer.prod (Samples.after MoreSamples.run_failed))
  = Producer.kafkaProducerClosing
  ∧ Producer.step (Producer.CallAsyncSendMessage "t" 0 Samples.hello)
      (Samples.after MoreSamples.run_failed)
    = Producer.Next (Samples.after MoreSamples.run_failed,
                     [Producer.Returned Producer.FnAsyncSendMessage None]).
Proof.
  assert (Producer.exec MoreSamples.run_failed Producer.init
          = Producer.Next (Samples.after MoreSamples.run_failed,
                           Samples.seen MoreSamples.run_failed)) as Hexec
    by (vm_compute; reflexivity).
  assert (Producer.runner (Samples.after MoreSamples.run_failed)
          = Producer.RunReturned
              (Some (ErrKafkaAsyncSendMessage (ErrExternal 1)))) as Hret
    by (vm_compute; reflexivity).
  destruct (run_exit_closes_producer _ _ _ _ Hexec Hret) as (Hflag & _ & Hsend).
  split; [exact Hflag|]. apply Hsend. vm_compute; reflexivity.
Defined.


Lemma Flush_gets_through_witness :
  ∃ w' log',
    Producer.exec
      (Producer.drain 1 ++ [Producer.FlushSelect None Producer.FlushDone])
      (Samples.after MoreSamples.flush_waiting) = Producer.Next (w', log')
    ∧ last log' = Some (Producer.Returned Producer.FnFlush None).
Proof.
  assert (Producer.exec MoreSamples.flush_waiting Producer.init
          = Producer.Next (Samples.after MoreSamples.flush_waiting,
                           Samples.seen MoreSamples.flush_waiting)) as Hexec
    by (vm_compute; reflexivity).
  destruct (Flush_gets_through _ _ _ 0%nat None Hexec)
    as (w' & log' & H1 & H2 & _).
  - vm_compute; reflexivity.
  - vm_compute; reflexivity.
  - vm_compute; reflexivity.
  - vm_compute; reflexivity.
  - exists w', log'. split; [exact H1|exact H2].
Defined.

Lemma invalid_config_names_topic_iff_exists_witness :
  Adjust.validateMinInsyncReplicas MoreSamples.plain_topic_admin
    (list_to_map [("t"%string, topic_with 2 [])]) "t" 1
  = Some (ErrKafkaInvalidConfig "topic").
Proof.
  assert (Adjust.applicable_min_insync_str MoreSamples.plain_topic_admin
            (list_to_map [("t"%string, topic_with 2 [])]) "t" = Ok "3"%string)
    as Hstr by (vm_compute; reflexivity).
  assert (Strconv.Atoi "3" = Ok 3) as Hnum by (vm_compute; reflexivity).
  assert (1 < 3) as Hlt by lia.
  exact (invalid_config_names_topic_iff_exists MoreSamples.plain_topic_admin
           (list_to_map [("t"%string, topic_with 2 [])]) "t" 1 "3" 3
           Hstr Hnum Hlt).
Defined.

Lemma AdjustOptions_never_raises_MaxMessageBytes_witness :
  kafka.MaxMessageBytes
    (AdjustWith.AdjustOptions_with AdjustWith.strict_SetPartitionNum
       MoreSamples.small_topic_admin (options_of 1000 5 1) "t").1
  ≤ 1000.
Proof.
  apply (AdjustOptions_never_raises_MaxMessageBytes
           MoreSamples.small_topic_admin AdjustWith.strict_SetPartitionNum
           (options_of 1000 5 1) "t").
  intros o n. unfold AdjustWith.strict_SetPartitionNum.
  repeat case_match; simpl; lia.
Defined.


Lemma AdjustOptions_max_bytes_lookup_fails_witness :
  Adjust.AdjustOptions MoreSamples.silent_broker_admin (options_of 1000 0 1) "t"
  = (options_of 1000 0 1, Some ErrKafkaBrokerConfigNotFound).
Proof.
  apply (AdjustOptions_max_bytes_lookup_fails MoreSamples.silent_broker_admin
           (options_of 1000 0 1) "t" (list_to_map []));
    [reflexivity|vm_compute; reflexivity|left; vm_compute; reflexivity
    |vm_compute; reflexivity].
Defined.

Lemma AdjustOptions_malformed_number_witness :
  Adjust.AdjustOptions MoreSamples.garbled_broker_admin (options_of 1000 0 1) "t"
  = (options_of 1000 0 1, Some (ErrStrconv "Atoi" "1MB" ErrSyntax)).
Proof.
  apply (AdjustOptions_malformed_number MoreSamples.garbled_broker_admin
           (options_of 1000 0 1) "t" (list_to_map []) "1MB");
    [reflexivity|vm_compute; reflexivity|].
  right. split; vm_compute; reflexivity.
Defined.

Lemma AdjustOptions_twice_witness :
  Adjust.AdjustOptions MoreSamples.empty_broker_admin (options_of 500 3 1) "t"
  = (options_of 500 3 1, None).
Proof.
  assert (Adjust.AdjustOptions MoreSamples.empty_broker_admin
            (options_of 1000 0 1) "t" = (options_of 500 3 1, None)) as Hfirst
    by (vm_compute; reflexivity).
  pose proof (AdjustOptions_twice MoreSamples.empty_broker_admin
                (options_of 1000 0 1) "t" (list_to_map [])
                eq_refl ltac:(vm_compute; reflexivity)) as Htwice.
  rewrite Hfirst in Htwice. exact Htwice.
Defined.

Lemma Config_String_shows_other_fields_witness :
  relay.same_but_password
    (MoreSamples.sample_config "127.0.0.1" "s3cret")
    (MoreSamples.sample_config "127.0.0.1" "hunter2").
Proof.
  apply Config_String_shows_other_fields; vm_compute; reflexivity.
Defined.
